(** * Prometheus-Universal-AI: the branch-sync uploader and the memory service

    A shallow embedding of [github_upload.py] (the GitHub Contents-API
    uploader) and of [server.py] (the key-value memory service), and the
    properties of the specification proved about them.

    A Python [str] is modelled by a [string] of bytes: the UTF-8 encoding
    of its characters, where a lone surrogate U+DC80..U+DCFF, which is how
    [os.fsdecode] and [os.environ] keep a byte they cannot decode, stands
    for that byte.  A [str] can be encoded to UTF-8 exactly when its bytes
    are well-formed UTF-8 ([PyStr.utf8_valid]), and these bytes are then
    its encoding; [bytes] that are well-formed UTF-8 decode to the [str]
    with the same bytes.  The operations of the scripts that look for
    ASCII text ([startswith], [endswith], [in], [split], [replace]) act on
    the bytes as they act on the characters.  Python dictionaries with
    string keys are [gmap string _], the content of a file is a
    [list byte], and the remote store is an arbitrary state machine that
    answers the requests handed to [urlopen].  Standard output is a
    stream that takes every line printed. *)

From Stdlib Require Import ZArith Ascii String List Lia.
From Stdlib.Strings Require Import Byte.
From stdpp Require Import base option list strings gmap pretty.

Set Warnings "-register-all".

Local Open Scope string_scope.
Local Open Scope list_scope.
Local Open Scope Z_scope.

(** The two separator characters, [/] and the backslash. *)
Definition slash : ascii := "047"%char.
Definition backslash : ascii := "092"%char.

(** ** Python string operations *)

Module PyStr.

(** [s.startswith(p)] *)
Fixpoint startswith (p s : string) : bool :=
  match p, s with
  | EmptyString, _ => true
  | String a p', String b s' => if Ascii.eqb a b then startswith p' s' else false
  | String _ _, EmptyString => false
  end.

(** [p in s] for strings: [p] occurs in [s] at some position. *)
Fixpoint contains (p s : string) : bool :=
  startswith p s ||
  match s with
  | EmptyString => false
  | String _ s' => contains p s'
  end.

(** [s.endswith(suf)]: some tail of [s] is [suf]. *)
Fixpoint endswith (suf s : string) : bool :=
  String.eqb s suf ||
  match s with
  | EmptyString => false
  | String _ s' => endswith suf s'
  end.

(** [s.replace(a, b)] for one-character [a] and [b]. *)
Fixpoint replace (a b : ascii) (s : string) : string :=
  match s with
  | EmptyString => EmptyString
  | String c s' => String (if Ascii.eqb c a then b else c) (replace a b s')
  end.

(** [s.split(c)] for a one-character separator: empty fields are kept,
    and the result is never empty. *)
Fixpoint split (c : ascii) (s : string) : list string :=
  match s with
  | EmptyString => [EmptyString]
  | String x s' =>
      if Ascii.eqb x c then EmptyString :: split c s'
      else match split c s' with
           | h :: t => String x h :: t
           | [] => [String x EmptyString]
           end
  end.

(** [sep.join(l)] *)
Fixpoint join (sep : string) (l : list string) : string :=
  match l with
  | [] => EmptyString
  | [x] => x
  | x :: l' => x +:+ sep +:+ join sep l'
  end.

(** Truth value of a string: [bool(s)]. *)
Definition truthy (s : string) : bool :=
  match s with EmptyString => false | _ => true end.

(** [x or d] where [x] is [None] or a string. *)
Definition or_default (x : option string) (d : string) : string :=
  match x with
  | Some s => if truthy s then s else d
  | None => d
  end.

(** Well-formed UTF-8 (the table of the Unicode standard, which is what
    Python's codec accepts): the second byte of a three-byte or four-byte
    sequence is restricted after the lead bytes E0, ED, F0 and F4. *)
Definition utf8_cont (n : N) : bool := ((128 <=? n) && (n <=? 191))%N.

Definition utf8_second3 (lead n : N) : bool :=
  (if lead =? 224 then (160 <=? n) && (n <=? 191)
   else if lead =? 237 then (128 <=? n) && (n <=? 159)
   else utf8_cont n)%N.

Definition utf8_second4 (lead n : N) : bool :=
  (if lead =? 240 then (144 <=? n) && (n <=? 191)
   else if lead =? 244 then (128 <=? n) && (n <=? 143)
   else utf8_cont n)%N.

Fixpoint utf8_valid (s : string) : bool :=
  match s with
  | EmptyString => true
  | String a s1 =>
      let x := N_of_ascii a in
      if (x <? 128)%N then utf8_valid s1
      else
        match s1 with
        | EmptyString => false
        | String b s2 =>
            let y := N_of_ascii b in
            if ((194 <=? x) && (x <=? 223))%N then utf8_cont y && utf8_valid s2
            else
              match s2 with
              | EmptyString => false
              | String c s3 =>
                  let z := N_of_ascii c in
                  if ((224 <=? x) && (x <=? 239))%N
                  then utf8_second3 x y && utf8_cont z && utf8_valid s3
                  else
                    match s3 with
                    | EmptyString => false
                    | String d s4 =>
                        ((240 <=? x) && (x <=? 244))%N
                        && utf8_second4 x y && utf8_cont z
                        && utf8_cont (N_of_ascii d) && utf8_valid s4
                    end
              end
        end
  end.

(** [s.encode('utf-8')]: [None] is [UnicodeEncodeError], raised for a
    lone surrogate. *)
Definition encode (s : string) : option string :=
  if utf8_valid s then Some s else None.

(** [b.decode()]: [None] is [UnicodeDecodeError]. *)
Definition decode (b : string) : option string :=
  if utf8_valid b then Some b else None.

(** The characters for which [str.isspace()] holds, by the bytes of their
    encoding: U+0009..U+000D, U+001C..U+0020; U+0085 and U+00A0;
    U+1680, U+2000..U+200A, U+2028, U+2029, U+202F, U+205F and U+3000. *)
Definition is_space (c : ascii) : bool :=
  let n := N_of_ascii c in
  ((9 <=? n) && (n <=? 13) || (28 <=? n) && (n <=? 32))%N.

Definition is_space2 (a b : ascii) : bool :=
  let x := N_of_ascii a in
  let y := N_of_ascii b in
  ((x =? 194) && ((y =? 133) || (y =? 160)))%N.

Definition is_space3 (a b c : ascii) : bool :=
  let x := N_of_ascii a in
  let y := N_of_ascii b in
  let z := N_of_ascii c in
  ((x =? 225) && (y =? 154) && (z =? 128)
   || (x =? 226) && (y =? 128)
      && ((128 <=? z) && (z <=? 138) || (z =? 168) || (z =? 169) || (z =? 175))
   || (x =? 226) && (y =? 129) && (z =? 159)
   || (x =? 227) && (y =? 128) && (z =? 128))%N.

(** [s.lstrip()] *)
Fixpoint lstrip (s : string) : string :=
  match s with
  | EmptyString => EmptyString
  | String a s1 =>
      if is_space a then lstrip s1
      else
        match s1 with
        | EmptyString => s
        | String b s2 =>
            if is_space2 a b then lstrip s2
            else
              match s2 with
              | EmptyString => s
              | String c s3 => if is_space3 a b c then lstrip s3 else s
              end
        end
  end.

(** [s.rstrip()], on the bytes of [s] from the last to the first. *)
Fixpoint rstrip_rev (l : list ascii) : list ascii :=
  match l with
  | [] => []
  | c :: l1 =>
      if is_space c then rstrip_rev l1
      else
        match l1 with
        | [] => l
        | b :: l2 =>
            if is_space2 b c then rstrip_rev l2
            else
              match l2 with
              | [] => l
              | a :: l3 => if is_space3 a b c then rstrip_rev l3 else l
              end
        end
  end.

Definition rstrip (s : string) : string :=
  string_of_list_ascii (rev (rstrip_rev (rev (list_ascii_of_string s)))).

(** [s.strip()] *)
Definition strip (s : string) : string := rstrip (lstrip s).

End PyStr.

(** ** JSON values, as [json.load] returns them *)

Inductive json : Type :=
| JNull
| JBool (b : bool)
| JNum (n : Z)
| JStr (s : string)
| JArr (l : list json)
| JObj (m : gmap string json).

Module Json.

(** Python truth value of a decoded JSON value. *)
Definition truthy (v : json) : bool :=
  match v with
  | JNull => false
  | JBool b => b
  | JNum n => negb (n =? 0)
  | JStr s => PyStr.truthy s
  | JArr l => match l with [] => false | _ => true end
  | JObj m => negb (bool_decide (size m = 0%nat))
  end.

End Json.

(** ** The host: [os.sep], [os.path] and [os.walk]

    [os.path] is [posixpath], transcribed with the separator as a
    parameter, and [cwd] is [os.getcwd()].  With [sep = "/"] this is a
    POSIX host.  With another separator the functions are not those of
    [ntpath], which knows drives and takes ["/"] as a separator too:
    what is proved about the spelling of paths is stated for
    [sep = "/"], and a statement made for every [sep] does not depend on
    how paths are joined. *)

(** A directory: the names of its files and its sub-directories, in the
    order [os.scandir] lists them. *)
Inductive tree : Type :=
| Dir (filenames : list string) (subdirs : list (string * tree)).

Definition tree_files (t : tree) : list string :=
  match t with Dir fns _ => fns end.

Definition tree_subdirs (t : tree) : list (string * tree) :=
  match t with Dir _ subs => subs end.

Section Host.

Variable sep : ascii.
Variable cwd : string.

Definition sep_str : string := String sep EmptyString.

(** [os.path.join(a, b)] *)
Definition path_join (a b : string) : string :=
  if PyStr.startswith sep_str b then b
  else if negb (PyStr.truthy a) || PyStr.endswith sep_str a then a +:+ b
  else a +:+ sep_str +:+ b.

(** [os.path.join(x, *l)] *)
Definition path_join_all (x : string) (l : list string) : string :=
  fold_left path_join l x.

(** The loop of [normpath]: [new_comps] is kept in reverse, its head is
    [new_comps[-1]]. *)
Fixpoint normpath_loop (initial_slashes : nat) (new_comps : list string)
    (comps : list string) : list string :=
  match comps with
  | [] => rev new_comps
  | comp :: comps' =>
      if String.eqb comp EmptyString || String.eqb comp "." then
        normpath_loop initial_slashes new_comps comps'
      else if negb (String.eqb comp "..")
              || (Nat.eqb initial_slashes 0
                  && match new_comps with [] => true | _ => false end)
              || match new_comps with
                 | last :: _ => String.eqb last ".."
                 | [] => false
                 end
      then normpath_loop initial_slashes (comp :: new_comps) comps'
      else normpath_loop initial_slashes (tl new_comps) comps'
  end.

(** The variable [initial_slashes] of [normpath]: 0 for a relative path,
    2 for a path that starts with exactly two separators, 1 otherwise. *)
Definition initial_slashes (path : string) : nat :=
  if PyStr.startswith sep_str path then
    if PyStr.startswith (sep_str +:+ sep_str) path
       && negb (PyStr.startswith (sep_str +:+ sep_str +:+ sep_str) path)
    then 2%nat else 1%nat
  else 0%nat.

(** [os.path.normpath(path)] *)
Definition normpath (path : string) : string :=
  if negb (PyStr.truthy path) then "."
  else
    let comps := normpath_loop (initial_slashes path) [] (PyStr.split sep path) in
    let path' := PyStr.join sep_str comps in
    let path' :=
      PyStr.join EmptyString (replicate (initial_slashes path) sep_str) +:+ path' in
    if PyStr.truthy path' then path' else ".".

(** [os.path.abspath(path)] *)
Definition abspath (path : string) : string :=
  if PyStr.startswith sep_str path then normpath path
  else normpath (path_join cwd path).

(** The length of [os.path.commonprefix([l1, l2])] for two lists. *)
Fixpoint commonprefix_len (l1 l2 : list string) : nat :=
  match l1, l2 with
  | x :: l1', y :: l2' =>
      if String.eqb x y then S (commonprefix_len l1' l2') else 0%nat
  | _, _ => 0%nat
  end.

(** [os.path.relpath(path, start)]; [None] is the [ValueError] for an
    empty [path]. *)
Definition relpath (path start : string) : option string :=
  if negb (PyStr.truthy path) then None
  else
    let start_list := filter (λ x, PyStr.truthy x = true) (PyStr.split sep (abspath start)) in
    let path_list := filter (λ x, PyStr.truthy x = true) (PyStr.split sep (abspath path)) in
    let i := commonprefix_len start_list path_list in
    let rel_list := replicate (length start_list - i)%nat ".." ++ drop i path_list in
    match rel_list with
    | [] => Some "."
    | x :: l => Some (path_join_all x l)
    end.

(** [os.walk(top)] over the directory [t] found at [top]: top-down, every
    directory yields [(root, dirs, filenames)] before its sub-directories
    are walked, each under [os.path.join(root, name)]. *)
Fixpoint os_walk (top : string) (t : tree)
    : list (string * list string * list string) :=
  match t with
  | Dir fns subs =>
      (top, map fst subs, fns)
      :: flat_map (λ ns, os_walk (path_join top (fst ns)) (snd ns)) subs
  end.

End Host.

(** ** [github_upload.py]: configuration and file discovery *)

Module Uploader.

(** The module-level globals read from the environment. *)
Record config : Type := Config {
  GITHUB_TOKEN : string;
  REPO : string;
  BRANCH : string;
  BASE_BRANCH : string;
  SOURCE_DIR : string;
  COMMIT_PREFIX : string
}.

(** [x in l] for a list of strings. *)
Definition list_contains (x : string) (l : list string) : bool :=
  existsb (String.eqb x) l.

Section Discover.

Variable sep : ascii.
Variable cwd : string.
Variable cfg : config.

(** The two guards at the head of the [os.walk] loop of [main]: when
    either holds the iteration is abandoned by [continue]. *)
Definition skip_component (root : string) : bool :=
  list_contains ".git" (PyStr.split sep root).

Definition skip_substring (root : string) : bool :=
  PyStr.startswith "./.git" root || PyStr.contains "/.git" root.

(** The inner loop [for fn in filenames]; [None] is the [ValueError]
    of [os.path.relpath]. *)
Fixpoint for_filenames (root : string) (filenames : list string)
    (files : list (string * string)) : option (list (string * string)) :=
  match filenames with
  | [] => Some files
  | fn :: rest =>
      if PyStr.endswith ".zip" fn then for_filenames root rest files
      else
        let full := path_join sep root fn in
        match relpath sep cwd full (SOURCE_DIR cfg) with
        | None => None
        | Some rel =>
            for_filenames root rest
              (files ++ [(full, PyStr.replace backslash slash rel)])
        end
  end.

(** The outer loop [for root, dirs, filenames in os.walk(SOURCE_DIR)]. *)
Fixpoint for_walk (entries : list (string * list string * list string))
    (files : list (string * string)) : option (list (string * string)) :=
  match entries with
  | [] => Some files
  | (root, dirs, filenames) :: rest =>
      if skip_component root then for_walk rest files
      else if skip_substring root then for_walk rest files
      else
        match for_filenames root filenames files with
        | None => None
        | Some files' => for_walk rest files'
        end
  end.

(** Lines 101-115 of [main]: the list [files] built from the tree found
    at [SOURCE_DIR]. *)
Definition discover_files (t : tree) : option (list (string * string)) :=
  for_walk (os_walk sep (SOURCE_DIR cfg) t) [].

End Discover.


(** *** Encodings used for the remote calls *)

Definition b64_alphabet : string :=
  "ABCDEFGHIJKLMNOPQRSTUVWXYZabcdefghijklmnopqrstuvwxyz0123456789+/".

Definition b64_char (n : N) : ascii :=
  match String.get (N.to_nat n) b64_alphabet with
  | Some c => c
  | None => "="%char
  end.

(** [base64.b64encode(content).decode('utf-8')] *)
Fixpoint b64encode (content : list byte) : string :=
  match content with
  | [] => EmptyString
  | [a] =>
      let x := Byte.to_N a in
      String (b64_char (x / 4)) (String (b64_char ((x mod 4) * 16)) "==")
  | [a; b] =>
      let x := Byte.to_N a in
      let y := Byte.to_N b in
      String (b64_char (x / 4))
        (String (b64_char ((x mod 4) * 16 + y / 16))
           (String (b64_char ((y mod 16) * 4)) "="))
  | a :: b :: c :: rest =>
      let x := Byte.to_N a in
      let y := Byte.to_N b in
      let z := Byte.to_N c in
      String (b64_char (x / 4))
        (String (b64_char ((x mod 4) * 16 + y / 16))
           (String (b64_char ((y mod 16) * 4 + z / 64))
              (String (b64_char (z mod 64)) (b64encode rest))))
  end%N.

Definition hex_digit (n : N) : ascii :=
  match String.get (N.to_nat n) "0123456789ABCDEF" with
  | Some c => c
  | None => "0"%char
  end.

(** The bytes [urllib.parse.quote] leaves alone: letters, digits,
    [_.-~] and the default safe character [/]. *)
Definition quote_safe (c : ascii) : bool :=
  let n := N_of_ascii c in
  ((65 <=? n) && (n <=? 90) || (97 <=? n) && (n <=? 122)
   || (48 <=? n) && (n <=? 57)
   || (n =? 95) || (n =? 46) || (n =? 45) || (n =? 126) || (n =? 47))%N.

(** [urllib.parse.quote_from_bytes(bs)], with the default [safe='/'] *)
Fixpoint quote_from_bytes (bs : string) : string :=
  match bs with
  | EmptyString => EmptyString
  | String c bs' =>
      if quote_safe c then String c (quote_from_bytes bs')
      else
        let n := N_of_ascii c in
        String "%" (String (hex_digit (n / 16))
                      (String (hex_digit (n mod 16)) (quote_from_bytes bs')))
  end%N.

(** [urllib.parse.quote(s)]: [s] is encoded to UTF-8, strictly, and the
    bytes are quoted; [None] is the [UnicodeEncodeError] of the encoding. *)
Definition quote (s : string) : option string :=
  match PyStr.encode s with
  | Some bs => Some (quote_from_bytes bs)
  | None => None
  end.

(** *** Exceptions, requests and the process state *)

(** [urllib.error.HTTPError]: status code, reason and the bytes of the
    response body, as [e.read()] returns them. *)
Record HTTPError : Type := MkHTTPError {
  code : Z;
  reason : string;
  err_body : string
}.

(** The exceptions the script can meet: an [HTTPError], or any other
    subclass of [Exception] ([URLError], [JSONDecodeError], [KeyError],
    [OSError], ...), kept with its message. *)
Inductive exn : Type :=
| EHTTPError (e : HTTPError)
| EException (msg : string).

(** [str(e)] *)
Definition str_exn (e : exn) : string :=
  match e with
  | EHTTPError h => "HTTP Error " +:+ pretty (code h) +:+ ": " +:+ reason h
  | EException msg => msg
  end.

Inductive method : Type := GET | POST | PUT.

#[global] Instance method_eq_dec : EqDecision method.
Proof. solve_decision. Defined.

(** What the script gives to [urllib.request.Request]: the method, the
    URL, the headers dictionary as the script writes it, and for [data]
    the dictionary handed to [json.dumps]. *)
Record request : Type := Request {
  meth : method;
  url : string;
  headers : gmap string string;
  data : option (gmap string json)
}.

(** What [urlopen] followed by [json.load] gives: the decoded body of a
    2xx response, or the exception raised. *)
Definition reply : Type := json + exn.

(** How a computation ends: it returns, an exception propagates, or
    [sys.exit(status)] was called ([SystemExit] is not an [Exception],
    so no handler of the script catches it). *)
Inductive outcome (A : Type) : Type :=
| Return (a : A)
| Raise (e : exn)
| SysExit (status : Z).
Arguments Return {A} a.
Arguments Raise {A} e.
Arguments SysExit {A} status.

(** The exit status of the interpreter: 0 when the script runs to its
    end, 1 for an uncaught exception, the argument of [sys.exit]
    otherwise. *)
Definition exit_status {A} (o : outcome A) : Z :=
  match o with
  | Return _ => 0
  | Raise _ => 1
  | SysExit status => status
  end.

Section Run.

(** The remote store: any state machine answering the requests handed
    to [urlopen], by a decoded body or by the exception that [urlopen] or
    [json.load] raises. *)
Context {store : Type}.
Variable urlopen : store → request → reply * store.

(** The local files: [open(path, 'rb').read()], [None] when it fails. *)
Variable read_file : string → option (list byte).

(** The host, and the directory found at [SOURCE_DIR]. *)
Variable sep : ascii.
Variable cwd : string.
Variable source_tree : tree.

(** The state of a run: the remote store, the remote calls made so far
    with their replies (oldest first), the lines printed, and the
    lines still to be read from standard input. *)
Record world : Type := World {
  remote : store;
  trace : list (request * reply);
  stdout : list string;
  stdin : list string
}.

Definition M (A : Type) : Type := world → outcome A * world.

Definition ret {A} (a : A) : M A := λ w, (Return a, w).

Definition bind {A B} (m : M A) (f : A → M B) : M B := λ w,
  match m w with
  | (Return a, w') => f a w'
  | (Raise e, w') => (Raise e, w')
  | (SysExit status, w') => (SysExit status, w')
  end.

Definition raise {A} (e : exn) : M A := λ w, (Raise e, w).

Definition sys_exit {A} (status : Z) : M A := λ w, (SysExit status, w).

(** [try: m except Exception as e: h e] *)
Definition try_except {A} (m : M A) (h : exn → M A) : M A := λ w,
  match m w with
  | (Raise e, w') => h e w'
  | r => r
  end.

(** [try: m except urllib.error.HTTPError as e: h e] *)
Definition try_except_http {A} (m : M A) (h : HTTPError → M A) : M A := λ w,
  match m w with
  | (Raise (EHTTPError e), w') => h e w'
  | r => r
  end.

Definition print (line : string) : M unit := λ w,
  (Return tt, World (remote w) (trace w) (stdout w ++ [line]) (stdin w)).

(** [input(prompt)]: the prompt is written, a line is read;
    [EOFError] at end of input. *)
Definition input (prompt : string) : M string := λ w,
  let out := stdout w ++ [prompt] in
  match stdin w with
  | line :: rest => (Return line, World (remote w) (trace w) out rest)
  | [] => (Raise (EException "EOFError"), World (remote w) (trace w) out [])
  end.

(** [json.load(urllib.request.urlopen(req))]: one remote call. *)
Definition urlopen_json (req : request) : M json := λ w,
  let '(rp, st) := urlopen (remote w) req in
  let w' := World st (trace w ++ [(req, rp)]) (stdout w) (stdin w) in
  match rp with
  | inl body => (Return body, w')
  | inr e => (Raise e, w')
  end.

#[global] Instance M_ret : MRet M := @ret.
#[global] Instance M_bind : MBind M := λ A B f m, bind m f.

(** [v[k]] on a decoded JSON value: [KeyError] for a missing key,
    [TypeError] when [v] is not a dictionary (a list, string or number
    cannot be indexed by a string, [None] and booleans not at all). *)
Definition getitem (v : json) (k : string) : json + exn :=
  match v with
  | JObj m =>
      match m !! k with
      | Some x => inl x
      | None => inr (EException "KeyError")
      end
  | _ => inr (EException "TypeError")
  end.

Definition subscript (v : json) (k : string) : M json :=
  match getitem v k with
  | inl x => ret x
  | inr e => raise e
  end.

(** [v.get(k)]: [None] (here [JNull]) for a missing key,
    [AttributeError] when [v] is not a dictionary. *)
Definition dict_get (v : json) (k : string) : M json :=
  match v with
  | JObj m => ret (default JNull (m !! k))
  | _ => raise (EException "AttributeError")
  end.

Definition API_BASE : string := "https://api.github.com".

Section WithConfig.

Variable cfg : config.

Definition base_headers : gmap string string :=
  {[ "Authorization" := "token " +:+ GITHUB_TOKEN cfg;
     "User-Agent" := "webssh-verifier-uploader";
     "Accept" := "application/vnd.github+json" ]}.

Definition json_headers : gmap string string :=
  <["Content-Type" := "application/json"]> base_headers.

(** [api_get]: an [HTTPError] is returned as a value, any other
    exception propagates. *)
Definition api_get (path : string) : M (json + HTTPError) :=
  try_except_http
    (body ← urlopen_json (Request GET (API_BASE +:+ path) base_headers None);
     ret (inl body))
    (λ e, ret (inr e)).

Definition api_post (path : string) (payload : gmap string json) : M json :=
  urlopen_json (Request POST (API_BASE +:+ path) json_headers (Some payload)).

Definition api_put (path : string) (payload : gmap string json) : M json :=
  urlopen_json (Request PUT (API_BASE +:+ path) json_headers (Some payload)).

Definition ref_path (branch : string) : string :=
  "/repos/" +:+ REPO cfg +:+ "/git/ref/heads/" +:+ branch.

Definition refs_path : string := "/repos/" +:+ REPO cfg +:+ "/git/refs".

(** [f'/repos/{REPO}/contents/{quoted}'] *)
Definition contents_path (quoted : string) : string :=
  "/repos/" +:+ REPO cfg +:+ "/contents/" +:+ quoted.

(** [quote(relpath)] inside a statement *)
Definition quoted (relpath : string) : M string :=
  match quote relpath with
  | Some q => ret q
  | None => raise (EException "UnicodeEncodeError")
  end.

(** [e.read().decode()] *)
Definition read_decode (e : HTTPError) : M string :=
  match PyStr.decode (err_body e) with
  | Some s => ret s
  | None => raise (EException "UnicodeDecodeError")
  end.

(** The dictionary [{'ref': f'refs/heads/{branch}', 'sha': sha}]. *)
Definition create_ref_payload (branch : string) (sha : json) : gmap string json :=
  {[ "ref" := JStr ("refs/heads/" +:+ branch); "sha" := sha ]}.

Definition ensure_branch : M unit :=
  print ("Ensuring branch " +:+ BRANCH cfg +:+ " exists (base: "
         +:+ BASE_BRANCH cfg +:+ ")...");;
  r ← api_get (ref_path (BASE_BRANCH cfg));
  match r with
  | inr e =>
      print ("Failed to fetch base branch info: " +:+ str_exn (EHTTPError e));;
      sys_exit 3
  | inl r =>
      obj ← subscript r "object";
      base_sha ← subscript obj "sha";
      existing ← api_get (ref_path (BRANCH cfg));
      match existing with
      | inl _ => print "Branch already exists."
      | inr _ =>
          let payload := create_ref_payload (BRANCH cfg) base_sha in
          try_except
            (api_post refs_path payload;;
             print "Branch created.")
            (λ e, print ("Failed to create branch: " +:+ str_exn e);;
                  sys_exit 4)
      end
  end.

(** The query is made inside [try ... except Exception], which also
    catches what [quote] raises; the write is made inside
    [try ... except urllib.error.HTTPError], which does not, and what
    the handler itself raises propagates. *)
Definition upload_file (path_on_disk relpath : string) : M unit :=
  content ← match read_file path_on_disk with
            | Some content => ret content
            | None => raise (EException "OSError")
            end;
  let content_b64 := b64encode content in
  sha ← try_except
          (q ← quoted relpath;
           existing ← api_get (contents_path q +:+ "?ref=" +:+ BRANCH cfg);
           match existing with
           | inr _ => raise (EException "not found")
           | inl existing => dict_get existing "sha"
           end)
          (λ _, ret JNull);
  let message := COMMIT_PREFIX cfg +:+ " add " +:+ relpath in
  let payload : gmap string json :=
    {[ "message" := JStr message; "content" := JStr content_b64;
       "branch" := JStr (BRANCH cfg) ]} in
  let payload := if Json.truthy sha then <["sha" := sha]> payload else payload in
  try_except_http
    (q ← quoted relpath;
     api_put (contents_path q) payload;;
     print ("Uploaded " +:+ relpath))
    (λ e, print ("Failed to upload " +:+ relpath +:+ " status " +:+ pretty (code e));;
          body ← read_decode e;
          print body;;
          sys_exit 5).

(** The loop [for full, rel in files: upload_file(full, rel)]. *)
Fixpoint upload_all (files : list (string * string)) : M unit :=
  match files with
  | [] => ret tt
  | (full, rel) :: rest => upload_file full rel;; upload_all rest
  end.

Definition main : M unit :=
  ensure_branch;;
  files ← match discover_files sep cwd cfg source_tree with
          | Some files => ret files
          | None => raise (EException "ValueError")
          end;
  upload_all files.

End WithConfig.

(** The module-level assignments, once the repository name is known. *)
Definition read_config (environ : gmap string string) (repo : string) : config :=
  Config (default EmptyString (environ !! "GITHUB_TOKEN")) repo
    (PyStr.or_default (environ !! "BRANCH") "feature/webssh-verifier")
    (PyStr.or_default (environ !! "BASE_BRANCH") "main")
    (PyStr.or_default (environ !! "SOURCE_DIR") ".")
    (PyStr.or_default (environ !! "COMMIT_PREFIX") "chore(verifier):").

(** The module as run by the interpreter: the globals are read from
    [os.environ], then [main()] is called. *)
Definition script (environ : gmap string string) : M unit :=
  if negb (PyStr.truthy (default EmptyString (environ !! "GITHUB_TOKEN"))) then
    print "Error: GITHUB_TOKEN environment variable is required.";;
    sys_exit 2
  else
    repo ← (if PyStr.truthy (default EmptyString (environ !! "REPO"))
            then ret (default EmptyString (environ !! "REPO"))
            else line ← input "Repo (owner/repo): "; ret (PyStr.strip line));
    main (read_config environ repo).

Definition init_world (st : store) (lines : list string) : world :=
  World st [] [] lines.

(** The remote calls made between two states of a run. *)
Definition new_calls (w w' : world) : list (request * reply) :=
  drop (length (trace w)) (trace w').

(** The calls of a trace made with a given method. *)
Definition calls_with (m : method) (tr : list (request * reply))
    : list (request * reply) :=
  filter (λ c, meth c.1 = m) tr.

End Run.

Arguments world : clear implicits.
Arguments M : clear implicits.

End Uploader.

Import Uploader.

(** ** Auxiliary definitions for the proofs *)

Section RunDefs.
Context {store : Type}.
Variable urlopen : store → request → reply * store.
Variable cfg : config.

(** The reply to a request in a given state of the run. *)
Definition reply_of (w : world store) (rq : request) : reply :=
  (urlopen (remote w) rq).1.

(** The world after one more remote call. *)
Definition record_call (w : world store) (rq : request) : world store :=
  World (urlopen (remote w) rq).2
    (trace w ++ [(rq, (urlopen (remote w) rq).1)]) (stdout w) (stdin w).

(** The world after more lines were printed. *)
Definition record_print (w : world store) (lines : list string) : world store :=
  World (remote w) (trace w) (stdout w ++ lines) (stdin w).

(** The request [api_get] sends. *)
Definition get_request (path : string) : request :=
  Request GET (API_BASE +:+ path) (base_headers cfg) None.

(** The value [upload_file] binds to [sha] after a reply to its query. *)
Definition sha_of_reply (rp : reply) : json :=
  match rp with
  | inl (JObj m) => default JNull (m !! "sha")
  | _ => JNull
  end.

(** The two requests of [upload_file] for a relative path that [quote]
    accepts: [quote] then gives [quote_from_bytes] of the same bytes. *)
Definition get_contents_request (rel : string) : request :=
  get_request (contents_path cfg (quote_from_bytes rel) +:+ "?ref=" +:+ BRANCH cfg).

(** The dictionary [payload] of [upload_file]. *)
Definition put_payload (content : list byte) (rel : string) (sha : json)
    : gmap string json :=
  let payload : gmap string json :=
    {[ "message" := JStr (COMMIT_PREFIX cfg +:+ " add " +:+ rel);
       "content" := JStr (b64encode content);
       "branch" := JStr (BRANCH cfg) ]} in
  if Json.truthy sha then <["sha" := sha]> payload else payload.

Definition put_contents_request (content : list byte) (rel : string) (sha : json)
    : request :=
  Request PUT (API_BASE +:+ contents_path cfg (quote_from_bytes rel)) (json_headers cfg)
    (Some (put_payload content rel sha)).

(** [r['object']['sha']] *)
Definition base_sha_of (r : json) : json + exn :=
  match getitem r "object" with
  | inl obj => getitem obj "sha"
  | inr e => inr e
  end.

Definition create_ref_request (branch : string) (sha : json) : request :=
  Request POST (API_BASE +:+ refs_path cfg) (json_headers cfg)
    (Some (create_ref_payload branch sha)).

Definition ensuring_line : string :=
  "Ensuring branch " +:+ BRANCH cfg +:+ " exists (base: " +:+ BASE_BRANCH cfg +:+ ")...".

(** [ensure_branch], executed symbolically. *)
Definition ensure_branch_result (w : world store) : outcome unit * world store :=
  let w0 := record_print w [ensuring_line] in
  let rq_base := get_request (ref_path cfg (BASE_BRANCH cfg)) in
  let w1 := record_call w0 rq_base in
  match reply_of w0 rq_base with
  | inr (EHTTPError e) =>
      (SysExit 3,
       record_print w1 ["Failed to fetch base branch info: " +:+ str_exn (EHTTPError e)])
  | inr e => (Raise e, w1)
  | inl r =>
      match base_sha_of r with
      | inr e => (Raise e, w1)
      | inl base_sha =>
          let rq_target := get_request (ref_path cfg (BRANCH cfg)) in
          let w2 := record_call w1 rq_target in
          match reply_of w1 rq_target with
          | inl _ => (Return tt, record_print w2 ["Branch already exists."])
          | inr (EException msg) => (Raise (EException msg), w2)
          | inr (EHTTPError _) =>
              let rq_create := create_ref_request (BRANCH cfg) base_sha in
              let w3 := record_call w2 rq_create in
              match reply_of w2 rq_create with
              | inl _ => (Return tt, record_print w3 ["Branch created."])
              | inr e =>
                  (SysExit 4,
                   record_print w3 ["Failed to create branch: " +:+ str_exn e])
              end
          end
      end
  end.

(** The remote calls of one [ensure_branch], with the way it ends. *)
Inductive ensure_log : list (request * reply) → outcome unit → Prop :=
| ensure_base_unresolved (e : HTTPError) :
    ensure_log [(get_request (ref_path cfg (BASE_BRANCH cfg)), inr (EHTTPError e))]
      (SysExit 3)
| ensure_base_failed (msg : string) :
    ensure_log [(get_request (ref_path cfg (BASE_BRANCH cfg)), inr (EException msg))]
      (Raise (EException msg))
| ensure_base_malformed (r : json) (e : exn) :
    base_sha_of r = inr e →
    ensure_log [(get_request (ref_path cfg (BASE_BRANCH cfg)), inl r)] (Raise e)
| ensure_already_exists (r base_sha r' : json) :
    base_sha_of r = inl base_sha →
    ensure_log [(get_request (ref_path cfg (BASE_BRANCH cfg)), inl r);
                (get_request (ref_path cfg (BRANCH cfg)), inl r')]
      (Return tt)
| ensure_target_failed (r base_sha : json) (msg : string) :
    base_sha_of r = inl base_sha →
    ensure_log [(get_request (ref_path cfg (BASE_BRANCH cfg)), inl r);
                (get_request (ref_path cfg (BRANCH cfg)), inr (EException msg))]
      (Raise (EException msg))
| ensure_created (r base_sha body : json) (e : HTTPError) :
    base_sha_of r = inl base_sha →
    ensure_log [(get_request (ref_path cfg (BASE_BRANCH cfg)), inl r);
                (get_request (ref_path cfg (BRANCH cfg)), inr (EHTTPError e));
                (create_ref_request (BRANCH cfg) base_sha, inl body)]
      (Return tt)
| ensure_creation_failed (r base_sha : json) (e : HTTPError) (e' : exn) :
    base_sha_of r = inl base_sha →
    ensure_log [(get_request (ref_path cfg (BASE_BRANCH cfg)), inl r);
                (get_request (ref_path cfg (BRANCH cfg)), inr (EHTTPError e));
                (create_ref_request (BRANCH cfg) base_sha, inr e')]
      (SysExit 4).

Variable read_file : string → option (list byte).

(** The lines [upload_file] prints. *)
Definition uploaded_line (rel : string) : string := "Uploaded " +:+ rel.

Definition upload_failure_line (rel : string) (e : HTTPError) : string :=
  "Failed to upload " +:+ rel +:+ " status " +:+ pretty (code e).

(** How [upload_file] ends after a write answered by an HTTP error: the
    body of the response is printed and the process exits with status 5,
    unless the body cannot be decoded. *)
Definition rejected_outcome (e : HTTPError) : outcome unit :=
  if PyStr.utf8_valid (err_body e) then SysExit 5
  else Raise (EException "UnicodeDecodeError").

Definition rejected_lines (rel : string) (e : HTTPError) : list string :=
  if PyStr.utf8_valid (err_body e) then [upload_failure_line rel e; err_body e]
  else [upload_failure_line rel e].

(** The remote calls of the upload loop over a list of files, with the
    way the loop ends: two calls per file, until a file cannot be read,
    its relative path cannot be encoded, or a write fails. *)
Inductive upload_log : list (string * string) → list (request * reply) → outcome unit → Prop :=
| upload_done :
    upload_log [] [] (Return tt)
| upload_unreadable (full rel : string) (rest : list (string * string)) :
    read_file full = None →
    upload_log ((full, rel) :: rest) [] (Raise (EException "OSError"))
| upload_unquotable (full rel : string) (rest : list (string * string))
    (content : list byte) :
    read_file full = Some content →
    quote rel = None →
    upload_log ((full, rel) :: rest) [] (Raise (EException "UnicodeEncodeError"))
| upload_stored (full rel : string) (rest : list (string * string))
    (content : list byte) (answer : reply) (body : json)
    (calls : list (request * reply)) (out : outcome unit) :
    read_file full = Some content →
    quote rel = Some (quote_from_bytes rel) →
    upload_log rest calls out →
    upload_log ((full, rel) :: rest)
      ((get_contents_request rel, answer)
       :: (put_contents_request content rel (sha_of_reply answer), inl body)
       :: calls) out
| upload_rejected (full rel : string) (rest : list (string * string))
    (content : list byte) (answer : reply) (e : HTTPError) :
    read_file full = Some content →
    quote rel = Some (quote_from_bytes rel) →
    upload_log ((full, rel) :: rest)
      [(get_contents_request rel, answer);
       (put_contents_request content rel (sha_of_reply answer), inr (EHTTPError e))]
      (rejected_outcome e)
| upload_failed (full rel : string) (rest : list (string * string))
    (content : list byte) (answer : reply) (msg : string) :
    read_file full = Some content →
    quote rel = Some (quote_from_bytes rel) →
    upload_log ((full, rel) :: rest)
      [(get_contents_request rel, answer);
       (put_contents_request content rel (sha_of_reply answer), inr (EException msg))]
      (Raise (EException msg)).

End RunDefs.

(** ** Concrete remotes and files, used to run the script on examples *)

Module Scripted.

(** A remote that answers the calls of a run with a prepared list of
    replies, in order; once the list is exhausted the connection fails. *)
Definition store : Type := list reply.

Definition urlopen (st : store) (rq : request) : reply * store :=
  match st with
  | rp :: rest => (rp, rest)
  | [] => (inr (EException "URLError"), [])
  end.

(** Local files given as a list of paths with their contents. *)
Fixpoint read_from (files : list (string * list byte)) (path : string)
    : option (list byte) :=
  match files with
  | [] => None
  | (p, content) :: rest =>
      if String.eqb p path then Some content else read_from rest path
  end.

End Scripted.

Definition example_config : config :=
  Config "secret" "owner/repo" "feature/webssh-verifier" "main" "."
    "chore(verifier):".

(** The bytes of ["hello"]. *)
Definition hello : list byte := [x68; x65; x6c; x6c; x6f]%byte.

Definition not_found : reply :=
  inr (EHTTPError (MkHTTPError 404 "Not Found" "{}")).

Definition found (sha : string) : reply :=
  inl (JObj {[ "sha" := JStr sha ]}).

(** Three files at the root of the source directory. *)
Definition three_files : tree := Dir ["a.txt"; "b.txt"; "c.txt"] [].

Definition three_files_content : list (string * list byte) :=
  [("./a.txt", hello); ("./b.txt", hello); ("./c.txt", hello)].

Definition ref_found (sha : string) : reply :=
  inl (JObj {[ "object" := JObj {[ "sha" := JStr sha ]} ]}).

Definition rejected : HTTPError := MkHTTPError 422 "Unprocessable Entity" "{}".

(** The branch exists, the first write is accepted, the second rejected. *)
Definition second_write_rejected : Scripted.store :=
  [ref_found "abc123"; ref_found "abc123";
   not_found; inl JNull;
   not_found; inr (EHTTPError rejected)].

(** ** Directory trees: names, positions, and the records of one directory *)

(** The names [os.scandir] can list: not empty, without the separator,
    and neither [.] nor [..]. *)
Definition wf_name (sep : ascii) (n : string) : bool :=
  PyStr.truthy n && negb (PyStr.contains (String sep EmptyString) n)
  && negb (String.eqb n ".") && negb (String.eqb n "..").

Fixpoint wf_tree (sep : ascii) (t : tree) : bool :=
  match t with
  | Dir fns subs =>
      forallb (wf_name sep) fns
      && forallb (λ ns, wf_name sep ns.1 && wf_tree sep ns.2) subs
  end.

(** The sub-directory reached by a path of directory names. *)
Fixpoint lookup_dir (name : string) (subs : list (string * tree)) : option tree :=
  match subs with
  | [] => None
  | (n, t) :: rest => if String.eqb n name then Some t else lookup_dir name rest
  end.

Fixpoint subtree_at (t : tree) (p : list string) : option tree :=
  match p with
  | [] => Some t
  | name :: p' =>
      match lookup_dir name (tree_subdirs t) with
      | Some sub => subtree_at sub p'
      | None => None
      end
  end.

(** [name] is a whole component of the path [s]: it stands between
    separators, or at an end of [s]. *)
Definition has_component (sep : ascii) (name s : string) : Prop :=
  ∃ a b : string,
    s = a +:+ name +:+ b
    ∧ (a = EmptyString ∨ PyStr.endswith (String sep EmptyString) a = true)
    ∧ (b = EmptyString ∨ PyStr.startswith (String sep EmptyString) b = true).

Section DiscoverDefs.
Variable sep : ascii.
Variable cwd : string.
Variable cfg : config.

(** The record appended for the file [fn] of the directory [root]. *)
Definition file_record (root fn : string) : string * string :=
  let full := path_join sep root fn in
  (full,
   PyStr.replace backslash slash
     (default EmptyString (relpath sep cwd full (SOURCE_DIR cfg)))).

(** The records one iteration of the [os.walk] loop appends. *)
Definition entry_records (entry : string * list string * list string)
    : list (string * string) :=
  let '(root, dirs, filenames) := entry in
  if skip_component sep root || skip_substring root then []
  else map (file_record root)
         (List.filter (λ fn, negb (PyStr.endswith ".zip" fn)) filenames).

End DiscoverDefs.

(** Example trees. *)
Definition nested_git_tree : tree :=
  Dir ["a.txt"]
    [("src", Dir ["m.py"]
               [(".git", Dir ["HEAD"] [("objects", Dir ["x"] [])])]);
     ("doc", Dir ["index.md"] [])].

Definition github_tree : tree :=
  Dir ["README.md"]
    [(".github", Dir ["ci.yml"] [("workflows", Dir ["build.yml"] [])])].

Definition archive_tree : tree := Dir ["out.zip"; "out.zip.bak"] [].

(** [dir_at t p sub]: following the directory names [p] from the root of
    [t] leads to the directory [sub]. *)
Inductive dir_at : tree → list string → tree → Prop :=
| dir_here (t : tree) : dir_at t [] t
| dir_below (fns : list string) (subs : list (string * tree)) (n : string)
    (child : tree) (p : list string) (sub : tree) :
    (n, child) ∈ subs → dir_at child p sub → dir_at (Dir fns subs) (n :: p) sub.

(** [k] separators in a row. *)
Fixpoint seps (sep : ascii) (k : nat) : string :=
  match k with
  | O => EmptyString
  | S k' => String sep (seps sep k')
  end.

(** The names of a list, each behind a separator. *)
Fixpoint sepcat (sep : ascii) (l : list string) : string :=
  match l with
  | [] => EmptyString
  | n :: l' => String sep EmptyString +:+ n +:+ sepcat sep l'
  end.

(** The path that [abspath] hands to [normpath]. *)
Definition absolute_input (sep : ascii) (cwd path : string) : string :=
  if PyStr.startswith (String sep EmptyString) path then path
  else path_join sep cwd path.

(** A path component that survives [normpath]: not empty, no separator. *)
Definition clean (sep : ascii) (x : string) : Prop :=
  PyStr.truthy x = true ∧ PyStr.contains (String sep EmptyString) x = false.

(** The separator as a string, for paths written with the backslash. *)
Definition backslash_str : string := String backslash EmptyString.

(** A tree with one file two directories down. *)
Definition abc_tree : tree := Dir [] [("a", Dir [] [("b", Dir ["c.txt"] [])])].

(** A tree of a POSIX host with a backslash in a file name. *)
Definition backslash_name_tree : tree :=
  Dir [] [("a", Dir ["b" +:+ backslash_str +:+ "c.txt"] [])].

(** A file name with the byte 0xFF, which is not UTF-8. *)
Definition undecodable_name : string := String "255"%char ".txt".

(** The configuration of the example with another source directory. *)
Definition config_in (source_dir : string) : config :=
  Config "secret" "owner/repo" "feature/webssh-verifier" "main" source_dir
    "chore(verifier):".

(** A reply that is a 2xx response with a JSON body. *)
Definition succeeded (rp : reply) : Prop :=
  match rp with
  | inl _ => True
  | inr _ => False
  end.

(** A remote that stores branch references: the state maps the URL under
    which a reference is read to its revision.  A GET of a stored URL
    answers with the revision under [object] and [sha], any other GET with
    404; a POST of [{ref, sha}] to [.../git/refs] stores the reference
    unless it is there already (422); a PUT is accepted. *)
Module RefStore.

Abbreviation store := (gmap string json).

(** The string without its last character. *)
Fixpoint drop_last (s : string) : string :=
  match s with
  | EmptyString => EmptyString
  | String c EmptyString => EmptyString
  | String c s' => String c (drop_last s')
  end.

(** The string behind a prefix of the length of [p]. *)
Fixpoint drop_prefix (p s : string) : string :=
  match p, s with
  | String _ p', String _ s' => drop_prefix p' s'
  | _, _ => s
  end.

(** The URL that reads the reference created by a POST to [post_url]
    with the name [ref]: [.../git/refs] and [refs/heads/b] give
    [.../git/ref/heads/b]. *)
Definition ref_url (post_url ref : string) : string :=
  drop_last post_url +:+ "/" +:+ drop_prefix "refs/" ref.

Definition unprocessable : reply :=
  inr (EHTTPError (MkHTTPError 422 "Unprocessable Entity" "{}")).

Definition urlopen (st : store) (rq : request) : reply * store :=
  match meth rq with
  | GET =>
      match st !! url rq with
      | Some sha => (inl (JObj {[ "object" := JObj {[ "sha" := sha ]} ]}), st)
      | None => (inr (EHTTPError (MkHTTPError 404 "Not Found" "{}")), st)
      end
  | POST =>
      match data rq with
      | Some payload =>
          match payload !! "ref", payload !! "sha" with
          | Some (JStr ref), Some sha =>
              match st !! ref_url (url rq) ref with
              | Some _ => (unprocessable, st)
              | None => (inl (JObj {[ "ref" := JStr ref ]}),
                         <[ref_url (url rq) ref := sha]> st)
              end
          | _, _ => (unprocessable, st)
          end
      | None => (unprocessable, st)
      end
  | PUT => (inl JNull, st)
  end.

(** A repository with the branch [main] only. *)
Definition only_main : store :=
  {[ "https://api.github.com/repos/owner/repo/git/ref/heads/main" := JStr "abc123" ]}.

End RefStore.

(** Every reply in the list is there: the base branch, the target branch,
    then for each of the three files no prior version and a stored write. *)
Definition all_accepted : Scripted.store :=
  [ref_found "abc123"; ref_found "abc123";
   not_found; inl JNull; not_found; inl JNull; not_found; inl JNull].

(** The second of three files cannot be read. *)
Definition second_file_missing : list (string * list byte) :=
  [("./a.txt", hello); ("./c.txt", hello)].

Definition three_records : list (string * string) :=
  [("./a.txt", "a.txt"); ("./b.txt", "b.txt"); ("./c.txt", "c.txt")].

(** [not GITHUB_TOKEN] at the head of the module. *)
Definition token_missing (environ : gmap string string) : bool :=
  negb (PyStr.truthy (default EmptyString (environ !! "GITHUB_TOKEN"))).

Definition token_error_line : string :=
  "Error: GITHUB_TOKEN environment variable is required.".

(** A request to the API of the configured repository, made as [api_get],
    [api_post] and [api_put] make theirs. *)
Definition repository_call (cfg : config) (rq : request) : Prop :=
  PyStr.startswith ("https://api.github.com/repos/" +:+ REPO cfg +:+ "/") (url rq) = true
  ∧ headers rq !! "Authorization" = Some ("token " +:+ GITHUB_TOKEN cfg)
  ∧ headers rq !! "User-Agent" = Some "webssh-verifier-uploader"
  ∧ (data rq = None ↔ meth rq = GET)
  ∧ (meth rq ≠ GET → headers rq !! "Content-Type" = Some "application/json").

(** [os.environ.get('REPO') or input('Repo (owner/repo): ').strip()] *)
Definition repo_of (environ : gmap string string) (lines : list string) : string :=
  if PyStr.truthy (default EmptyString (environ !! "REPO"))
  then default EmptyString (environ !! "REPO")
  else PyStr.strip (default EmptyString (head lines)).

(** * The memory service (server.py) *)

Module Server.

(** What a handler can raise.  FastAPI answers an [HTTPException] with
    its status code and any other exception with status 500. *)
Inductive exn :=
| HTTPException (status_code : Z) (detail : string)
| JSONDecodeError
| AttributeError
| TypeError
| FileNotFoundError.

(** [class MemoryEntry(BaseModel)], after validation. *)
Record MemoryEntry := { key : string; value : string }.

(** [MEMORY_PATH] on disk: its directory may be missing, the file may be
    missing, or the file holds some text. *)
Inductive file (text : Type) :=
| NoDirectory
| NoFile
| File (content : text).
Arguments NoDirectory {text}.
Arguments NoFile {text}.
Arguments File {text} content.

(** The status line of the response to a handler's outcome. *)
Definition status_code_of {A : Type} (r : exn + A) : Z :=
  match r with
  | inr _ => 200
  | inl (HTTPException c _) => c
  | inl _ => 500
  end.

Definition read_root : json :=
  JObj {[ "status" := JStr "Prometheus HAL API Online" ]}.

Definition hal_ping : json :=
  JObj (<[ "hal" := JStr "online" ]>
        (<[ "mode" := JStr "bound" ]>
         {[ "authority" := JStr "Adam Henry Nagle" ]})).

Section Handlers.
Context {text : Type}.
(** [json.load] of the file's text ([None] is [JSONDecodeError]) and
    [json.dump(..., indent=4)]. *)
Variable loads : text → option json.
Variable dumps : json → text.

(** [os.path.exists(MEMORY_PATH)] *)
Definition path_exists (f : file text) : bool :=
  match f with
  | File _ => true
  | _ => false
  end.

Definition get_memory (k : string) (f : file text) : exn + json :=
  match f with
  | File content =>
      match loads content with
      | None => inl JSONDecodeError
      | Some (JObj memory) =>
          inr (JObj {[ "value" := default (JStr "Not Found") (memory !! k) ]})
      | Some _ => inl AttributeError
      end
  | _ => inl (HTTPException 404 "Memory file not found")
  end.

(** [memory[entry.key] = entry.value] *)
Definition setitem (memory : json) (k : string) (v : json) : exn + json :=
  match memory with
  | JObj m => inr (JObj (<[ k := v ]> m))
  | _ => inl TypeError
  end.

(** [open(MEMORY_PATH, "w")] followed by [json.dump]. *)
Definition write_memory (memory : json) (f : file text) : exn + file text :=
  match f with
  | NoDirectory => inl FileNotFoundError
  | _ => inr (File (dumps memory))
  end.

Definition insert_memory (entry : MemoryEntry) (f : file text)
    : (exn + json) * file text :=
  let loaded :=
    match f with
    | File content =>
        match loads content with
        | Some memory => inr memory
        | None => inl JSONDecodeError
        end
    | _ => inr (JObj ∅)
    end in
  match loaded with
  | inl e => (inl e, f)
  | inr memory =>
      match setitem memory (key entry) (JStr (value entry)) with
      | inl e => (inl e, f)
      | inr memory' =>
          match write_memory memory' f with
          | inl e => (inl e, f)
          | inr f' =>
              (inr (JObj (<[ "status" := JStr "inserted" ]>
                          {[ "key" := JStr (key entry) ]})), f')
          end
      end
  end.

End Handlers.

(** A file whose text is the JSON value itself. *)
Definition plain_loads (j : json) : option json := Some j.
Definition plain_dumps (j : json) : json := j.

End Server.

(** ** Facts about the Python string operations *)

Section PyStrFacts.

Lemma str_app_nil_l (a : string) : EmptyString +:+ a = a.
Proof. reflexivity. Qed.

Lemma str_app_cons (x : ascii) (a b : string) :
  String x a +:+ b = String x (a +:+ b).
Proof. reflexivity. Qed.

Lemma str_app_assoc (a b c : string) : (a +:+ b) +:+ c = a +:+ (b +:+ c).
Proof.
  induction a as [|x a IH]; [done |]. by rewrite !str_app_cons, IH.
Qed.

Lemma str_app_nil_r (a : string) : a +:+ EmptyString = a.
Proof.
  induction a as [|x a IH]; [done |]. by rewrite str_app_cons, IH.
Qed.

Lemma str_app_eq_nil (a b : string) :
  a +:+ b = EmptyString → a = EmptyString ∧ b = EmptyString.
Proof.
  destruct a; [done |]. rewrite str_app_cons. discriminate.
Qed.

Lemma startswith_app (p r : string) : PyStr.startswith p (p +:+ r) = true.
Proof.
  induction p as [|x p IH]; [done |].
  rewrite str_app_cons. cbn. by rewrite Ascii.eqb_refl.
Qed.

Lemma startswith_inv (p s : string) :
  PyStr.startswith p s = true → ∃ r, s = p +:+ r.
Proof.
  revert s. induction p as [|x p IH]; intros s H.
  - by exists s.
  - destruct s as [|y s]; [discriminate |]. cbn in H.
    destruct (Ascii.eqb_spec x y) as [->|]; [| discriminate].
    destruct (IH s H) as [r ->]. by exists r.
Qed.

Lemma startswith_app_r (p s x : string) :
  PyStr.startswith p s = true → PyStr.startswith p (s +:+ x) = true.
Proof.
  intros H. destruct (startswith_inv _ _ H) as [r ->].
  rewrite str_app_assoc. apply startswith_app.
Qed.

Lemma contains_app_r (p s x : string) :
  PyStr.contains p s = true → PyStr.contains p (s +:+ x) = true.
Proof.
  induction s as [|c s IH]; intros H.
  - cbn in H. rewrite orb_false_r in H. destruct p; [| discriminate].
    destruct x; reflexivity.
  - cbn in H. apply orb_true_iff in H as [H | H].
    + pose proof (startswith_app_r p (String c s) x H) as H'.
      rewrite str_app_cons in H' |- *. cbn [PyStr.contains]. by rewrite H'.
    + rewrite str_app_cons. cbn [PyStr.contains]. rewrite (IH H). apply orb_true_r.
Qed.

Lemma contains_startswith (p s : string) :
  PyStr.contains p s = false → PyStr.startswith p s = false.
Proof.
  destruct s; cbn; intros H; by apply orb_false_iff in H as [H _].
Qed.

Lemma endswith_inv (suf s : string) :
  PyStr.endswith suf s = true → ∃ a, s = a +:+ suf.
Proof.
  induction s as [|c s IH]; cbn [PyStr.endswith]; intros H.
  - rewrite orb_false_r in H. destruct suf; [| discriminate]. by exists EmptyString.
  - apply orb_true_iff in H as [H | H].
    + apply String.eqb_eq in H. exists EmptyString. by rewrite <- H.
    + destruct (IH H) as [a ->]. exists (String c a). reflexivity.
Qed.

Lemma endswith_app (a suf : string) : PyStr.endswith suf (a +:+ suf) = true.
Proof.
  induction a as [|c a IH].
  - rewrite str_app_nil_l. destruct suf; cbn [PyStr.endswith]; [done |].
    by rewrite String.eqb_refl.
  - rewrite str_app_cons. cbn [PyStr.endswith]. rewrite IH. apply orb_true_r.
Qed.

(** A one-character suffix only depends on a non-empty tail. *)
Lemma endswith_char_app (c : ascii) (x y : string) :
  y ≠ EmptyString →
  PyStr.endswith (String c EmptyString) (x +:+ y)
  = PyStr.endswith (String c EmptyString) y.
Proof.
  intros Hy. induction x as [|a x IH]; [done |].
  rewrite str_app_cons. cbn [PyStr.endswith]. rewrite IH.
  replace (String a (x +:+ y) =? String c EmptyString)%string with false; [done |].
  symmetry. apply String.eqb_neq. intros Heq. injection Heq as _ Heq.
  by apply str_app_eq_nil in Heq as [_ ?].
Qed.

Lemma endswith_char_no_sep (c : ascii) (s : string) :
  PyStr.contains (String c EmptyString) s = false →
  PyStr.endswith (String c EmptyString) s = false.
Proof.
  induction s as [|a s IH]; [done |].
  cbn [PyStr.contains PyStr.endswith PyStr.startswith].
  intros H. apply orb_false_iff in H as [H1 H2].
  rewrite (IH H2), orb_false_r.
  destruct (Ascii.eqb_spec c a) as [->|Hne]; [discriminate |].
  apply String.eqb_neq. intros Heq. by injection Heq as -> _.
Qed.

Lemma split_nonempty (c : ascii) (s : string) :
  ∃ h t, PyStr.split c s = h :: t.
Proof.
  induction s as [|x s (h & t & IH)]; cbn; [by eexists _, _ |].
  destruct (Ascii.eqb x c); [by eexists _, _ |]. rewrite IH. by eexists _, _.
Qed.

Lemma split_app_sep (c : ascii) (a b : string) :
  PyStr.split c (a +:+ String c b) = PyStr.split c a ++ PyStr.split c b.
Proof.
  induction a as [|x a IH].
  - rewrite str_app_nil_l. cbn. by rewrite Ascii.eqb_refl.
  - rewrite str_app_cons. cbn [PyStr.split]. rewrite IH.
    destruct (Ascii.eqb x c); [done |].
    destruct (split_nonempty c a) as (h & t & ->). done.
Qed.

Lemma split_no_sep (c : ascii) (s : string) :
  PyStr.contains (String c EmptyString) s = false → PyStr.split c s = [s].
Proof.
  induction s as [|x s IH]; cbn; [done |].
  intros H. apply orb_false_iff in H as [H1 H2].
  destruct (Ascii.eqb_spec c x) as [->|Hne]; [discriminate |].
  replace (Ascii.eqb x c) with false by (symmetry; by apply Ascii.eqb_neq).
  by rewrite (IH H2).
Qed.

Lemma list_contains_app (x : string) (l1 l2 : list string) :
  list_contains x (l1 ++ l2) = list_contains x l1 || list_contains x l2.
Proof. apply existsb_app. Qed.

(** A whole component of a path is one of the fields of its split. *)
Lemma component_in_split (sep : ascii) (name s : string) :
  has_component sep name s →
  PyStr.contains (String sep EmptyString) name = false →
  list_contains name (PyStr.split sep s) = true.
Proof.
  intros (a & b & -> & Ha & Hb) Hname.
  assert (Hright : list_contains name (PyStr.split sep (name +:+ b)) = true).
  { destruct Hb as [-> | Hb].
    - rewrite str_app_nil_r, (split_no_sep _ _ Hname). cbn.
      by rewrite String.eqb_refl.
    - destruct (startswith_inv _ _ Hb) as [b' ->].
      rewrite str_app_cons, str_app_nil_l.
      rewrite split_app_sep, (split_no_sep _ _ Hname). cbn.
      by rewrite String.eqb_refl. }
  destruct Ha as [-> | Ha]; [exact Hright |].
  destruct (endswith_inv _ _ Ha) as [a' ->].
  rewrite str_app_assoc, str_app_cons, str_app_nil_l.
  rewrite split_app_sep, list_contains_app, Hright. apply orb_true_r.
Qed.

Lemma contains_app_mid (c : ascii) (a b : string) :
  PyStr.contains (String c EmptyString) (a +:+ String c b) = true.
Proof.
  induction a as [|x a IH].
  - rewrite str_app_nil_l. cbn. by rewrite Ascii.eqb_refl.
  - rewrite str_app_cons. cbn [PyStr.contains]. rewrite IH. apply orb_true_r.
Qed.

(** A suffix without the separator, behind a part that ends with the
    separator, is a suffix of what follows that part. *)
Lemma endswith_after_sep (sep : ascii) (suf x fn : string) :
  PyStr.endswith (String sep EmptyString) x = true →
  PyStr.contains (String sep EmptyString) suf = false →
  PyStr.endswith suf (x +:+ fn) = PyStr.endswith suf fn.
Proof.
  intros Hx Hsuf. induction x as [|c x IH]; [discriminate |].
  rewrite str_app_cons. cbn [PyStr.endswith] in Hx |- *.
  assert (Hne : (String c (x +:+ fn) =? suf)%string = false).
  { apply String.eqb_neq. intros <-.
    apply orb_true_iff in Hx as [Hx | Hx].
    - apply String.eqb_eq in Hx. injection Hx as -> ->.
      rewrite str_app_nil_l in Hsuf. cbn in Hsuf. by rewrite Ascii.eqb_refl in Hsuf.
    - destruct (endswith_inv _ _ Hx) as [y ->].
      rewrite str_app_assoc, str_app_cons, str_app_nil_l in Hsuf.
      pose proof (contains_app_mid sep (String c y) fn) as Hmid.
      rewrite str_app_cons in Hmid. by rewrite Hmid in Hsuf. }
  rewrite Hne, orb_false_l.
  apply orb_true_iff in Hx as [Hx | Hx]; [| by apply IH].
  apply String.eqb_eq in Hx. injection Hx as -> ->. by rewrite str_app_nil_l.
Qed.

End PyStrFacts.

(** ** Facts about paths and the directory walk *)

Lemma tree_ind_nested (P : tree → Prop) :
  (∀ fns subs, Forall (λ ns, P ns.2) subs → P (Dir fns subs)) →
  ∀ t, P t.
Proof.
  intros HDir. fix IH 1. intros [fns subs]. apply HDir.
  induction subs as [|[n sub] subs IHsubs]; constructor; [apply IH | exact IHsubs].
Qed.

Section WalkFacts.
Variable sep : ascii.

Local Abbreviation sps := (String sep EmptyString).

Lemma truthy_nonempty (s : string) : PyStr.truthy s = true ↔ s ≠ EmptyString.
Proof. destruct s; cbn; split; intros H; congruence. Qed.

Lemma wf_name_nonempty (n : string) : wf_name sep n = true → n ≠ EmptyString.
Proof.
  unfold wf_name. intros H.
  apply andb_true_iff in H as [H _]. apply andb_true_iff in H as [H _].
  apply andb_true_iff in H as [H _]. by apply truthy_nonempty.
Qed.

Lemma wf_name_no_sep (n : string) :
  wf_name sep n = true → PyStr.contains sps n = false.
Proof.
  unfold wf_name. intros H.
  apply andb_true_iff in H as [H _]. apply andb_true_iff in H as [H _].
  apply andb_true_iff in H as [_ H]. by apply negb_true_iff in H.
Qed.

Lemma wf_name_relative (n : string) :
  wf_name sep n = true → PyStr.startswith sps n = false.
Proof. intros H. apply contains_startswith. by apply wf_name_no_sep. Qed.

(** Joining a relative name appends to the path: the name itself, after a
    separator unless the path is empty or already ends with one. *)
Lemma path_join_relative (a n : string) :
  PyStr.startswith sps n = false →
  (path_join sep a n = a +:+ n
   ∧ (a = EmptyString ∨ PyStr.endswith sps a = true))
  ∨ (path_join sep a n = a +:+ sps +:+ n
     ∧ a ≠ EmptyString ∧ PyStr.endswith sps a = false).
Proof.
  intros Hn. unfold path_join, sep_str. rewrite Hn.
  destruct a as [|c a].
  - left. split; [reflexivity | by left].
  - cbn [PyStr.truthy negb orb].
    destruct (PyStr.endswith sps (String c a)) eqn:E.
    + left. split; [reflexivity | by right].
    + right. done.
Qed.

Lemma path_join_prefix (a n : string) :
  PyStr.startswith sps n = false → ∃ x, path_join sep a n = a +:+ x.
Proof.
  intros Hn. destruct (path_join_relative a n Hn) as [[-> _] | [-> _]]; by eexists.
Qed.

Lemma path_join_truthy (a n : string) :
  PyStr.truthy a = true → PyStr.truthy (path_join sep a n) = true.
Proof.
  intros Ha. unfold path_join, sep_str.
  destruct (PyStr.startswith sps n) eqn:E.
  - destruct n; [discriminate | reflexivity].
  - destruct a; [discriminate |].
    destruct (negb _ || _); reflexivity.
Qed.

Lemma join_new_component (a n : string) :
  PyStr.startswith sps n = false → has_component sep n (path_join sep a n).
Proof.
  intros Hn. destruct (path_join_relative a n Hn) as [[-> Ha] | [-> [Ha Ha']]].
  - exists a, EmptyString. rewrite str_app_nil_r.
    split; [done |]. split; [exact Ha | by left].
  - exists (a +:+ sps), EmptyString.
    rewrite str_app_nil_r, str_app_assoc. split; [done |]. split; [| by left].
    right. apply endswith_app.
Qed.

Lemma join_keeps_component (c a n : string) :
  has_component sep c a →
  c ≠ EmptyString →
  PyStr.contains sps c = false →
  PyStr.startswith sps n = false →
  has_component sep c (path_join sep a n).
Proof.
  intros (x & y & -> & Hx & Hy) Hc Hsep Hn.
  destruct (path_join_relative (x +:+ c +:+ y) n Hn) as [[-> Ha] | [-> [Ha Ha']]].
  - exists x, (y +:+ n). rewrite !str_app_assoc. split; [done |]. split; [done |].
    right. destruct Hy as [-> | Hy]; [| by apply startswith_app_r].
    exfalso. destruct Ha as [Ha | Ha].
    + apply str_app_eq_nil in Ha as [_ Ha].
      by apply str_app_eq_nil in Ha as [Ha _].
    + rewrite str_app_nil_r, endswith_char_app in Ha by done.
      by rewrite (endswith_char_no_sep _ _ Hsep) in Ha.
  - exists x, (y +:+ sps +:+ n). rewrite !str_app_assoc.
    split; [done |]. split; [done |]. right.
    destruct Hy as [-> | Hy]; [| by apply startswith_app_r].
    rewrite str_app_nil_l. apply startswith_app.
Qed.

(** Joining a name that does not end with a separator-free suffix gives a
    path that does not end with it either. *)
Lemma path_join_endswith (suf a n : string) :
  PyStr.contains sps suf = false →
  PyStr.endswith suf n = false →
  PyStr.endswith suf (path_join sep a n) = false.
Proof.
  intros Hsuf Hn. unfold path_join, sep_str.
  destruct (PyStr.startswith sps n); [done |].
  destruct a as [|c a]; [done |]. cbn [PyStr.truthy negb orb].
  destruct (PyStr.endswith sps (String c a)) eqn:E.
  - by rewrite (endswith_after_sep sep suf _ n E Hsuf).
  - rewrite <- str_app_assoc.
    by rewrite (endswith_after_sep sep suf _ n (endswith_app _ _) Hsuf).
Qed.

(** A property of paths that joining a directory name preserves holds for
    the root of every entry of the walk. *)
Lemma os_walk_roots (P : string → Prop) (t : tree) :
  (∀ a n, P a → wf_name sep n = true → P (path_join sep a n)) →
  ∀ top, wf_tree sep t = true → P top →
  ∀ root dirs fns, (root, dirs, fns) ∈ os_walk sep top t → P root.
Proof.
  intros Hjoin. induction t as [fns subs IH] using tree_ind_nested.
  intros top Hwf Htop root dirs fns' Hin. cbn [os_walk] in Hin.
  apply elem_of_cons in Hin as [Heq | Hin]; [by injection Heq as -> _ _ |].
  cbn [wf_tree] in Hwf. apply andb_true_iff in Hwf as [_ Hwf].
  apply list_elem_of_In, in_flat_map in Hin as ([n sub] & Hsub & Hin).
  rewrite forallb_forall in Hwf. specialize (Hwf _ Hsub).
  cbn in Hwf. apply andb_true_iff in Hwf as [Hn Hsubwf].
  rewrite Forall_forall in IH.
  apply list_elem_of_In in Hsub, Hin.
  apply (IH _ Hsub (path_join sep top n) Hsubwf (Hjoin _ _ Htop Hn) _ _ _ Hin).
Qed.

Lemma os_walk_roots_truthy (t : tree) (top : string) :
  PyStr.truthy top = true →
  ∀ root dirs fns, (root, dirs, fns) ∈ os_walk sep top t → PyStr.truthy root = true.
Proof.
  revert top. induction t as [fns subs IH] using tree_ind_nested.
  intros top Htop root dirs fns' Hin. cbn [os_walk] in Hin.
  apply elem_of_cons in Hin as [Heq | Hin]; [by injection Heq as -> _ _ |].
  apply list_elem_of_In, in_flat_map in Hin as ([n sub] & Hsub & Hin).
  rewrite Forall_forall in IH. apply list_elem_of_In in Hsub, Hin.
  apply (IH _ Hsub (path_join sep top n) (path_join_truthy _ _ Htop) _ _ _ Hin).
Qed.

(** The directory names on the way to a sub-directory of a well-formed
    tree are well formed, and so is the sub-directory. *)
Lemma lookup_dir_split (name : string) (subs : list (string * tree)) (sub : tree) :
  lookup_dir name subs = Some sub →
  ∃ l1 l2, subs = l1 ++ (name, sub) :: l2.
Proof.
  induction subs as [|[n t] subs IH]; [discriminate |]. cbn.
  destruct (String.eqb_spec n name) as [->|Hne].
  - intros [= ->]. by exists [], subs.
  - intros H. destruct (IH H) as (l1 & l2 & ->). by exists ((n, t) :: l1), l2.
Qed.

Lemma subtree_at_wf (t sub : tree) (p : list string) :
  wf_tree sep t = true → subtree_at t p = Some sub →
  Forall (λ n, wf_name sep n = true) p ∧ wf_tree sep sub = true.
Proof.
  revert t. induction p as [|name p IH]; intros t Hwf Hsub; cbn in Hsub.
  - injection Hsub as <-. by split.
  - destruct (lookup_dir name (tree_subdirs t)) as [child|] eqn:Hchild; [| discriminate].
    destruct (lookup_dir_split _ _ _ Hchild) as (l1 & l2 & Hsubs).
    destruct t as [fns subs]. cbn in Hsubs. subst subs.
    cbn [wf_tree] in Hwf. apply andb_true_iff in Hwf as [_ Hwf].
    rewrite forallb_app in Hwf. apply andb_true_iff in Hwf as [_ Hwf].
    cbn [forallb fst snd] in Hwf.
    apply andb_true_iff in Hwf as [Hwf _]. apply andb_true_iff in Hwf as [Hn Hc].
    destruct (IH child Hc Hsub) as [Hp Hs]. split; [by constructor | done].
Qed.

(** The walk of a sub-directory is a segment of the walk of the tree. *)
Lemma os_walk_subtree (t sub : tree) (p : list string) (top : string) :
  subtree_at t p = Some sub →
  ∃ before after,
    os_walk sep top t
    = before ++ os_walk sep (path_join_all sep top p) sub ++ after.
Proof.
  revert t top. induction p as [|name p IH]; intros t top Hsub; cbn in Hsub.
  - injection Hsub as <-. exists [], []. cbn. by rewrite app_nil_r.
  - destruct (lookup_dir name (tree_subdirs t)) as [child|] eqn:Hchild; [| discriminate].
    destruct (lookup_dir_split _ _ _ Hchild) as (l1 & l2 & Hsubs).
    destruct t as [fns subs]. cbn in Hsubs. subst subs.
    destruct (IH child (path_join sep top name) Hsub) as (before & after & Hwalk).
    cbn [os_walk path_join_all fold_left].
    rewrite flat_map_app. cbn [flat_map fst snd]. rewrite Hwalk.
    exists ((top, map fst (l1 ++ (name, child) :: l2), fns)
            :: flat_map (λ ns, os_walk sep (path_join sep top ns.1) ns.2) l1
            ++ before),
           (after ++ flat_map (λ ns, os_walk sep (path_join sep top ns.1) ns.2) l2).
    cbn [app]. f_equal. fold (path_join_all sep (path_join sep top name) p).
    by rewrite <- !app_assoc.
Qed.

End WalkFacts.

(** ** Facts about the discovery loop *)

Section DiscoverFacts.
Variable sep : ascii.
Variable cwd : string.
Variable cfg : config.

Lemma relpath_some (path start : string) :
  PyStr.truthy path = true →
  relpath sep cwd path start
  = Some (default EmptyString (relpath sep cwd path start)).
Proof.
  intros Hpath. unfold relpath. rewrite Hpath. cbn [negb]. cbv zeta.
  destruct (replicate _ _ ++ _); reflexivity.
Qed.

Lemma for_filenames_eq (root : string) (fns : list string)
    (files : list (string * string)) :
  PyStr.truthy root = true →
  for_filenames sep cwd cfg root fns files
  = Some (files ++ map (file_record sep cwd cfg root)
                     (List.filter (λ fn, negb (PyStr.endswith ".zip" fn)) fns)).
Proof.
  intros Hroot. revert files.
  induction fns as [|fn fns IH]; intros files; cbn [for_filenames List.filter map].
  - by rewrite app_nil_r.
  - destruct (PyStr.endswith ".zip" fn); cbn [negb]; [apply IH |].
    rewrite (relpath_some _ _ (path_join_truthy sep root fn Hroot)).
    rewrite IH. cbn [map]. by rewrite <- app_assoc.
Qed.

Lemma for_walk_eq (entries : list (string * list string * list string))
    (files : list (string * string)) :
  (∀ root dirs fns, (root, dirs, fns) ∈ entries → PyStr.truthy root = true) →
  for_walk sep cwd cfg entries files
  = Some (files ++ flat_map (entry_records sep cwd cfg) entries).
Proof.
  revert files. induction entries as [|[[root dirs] fns] entries IH]; intros files Hroots.
  - cbn. by rewrite app_nil_r.
  - cbn [for_walk flat_map entry_records].
    assert (Hrest : ∀ r d f, (r, d, f) ∈ entries → PyStr.truthy r = true).
    { intros r d f Hin. apply (Hroots r d f). by apply elem_of_cons; right. }
    destruct (skip_component sep root); cbn [orb]; [by apply IH |].
    destruct (skip_substring root); [by apply IH |].
    rewrite for_filenames_eq by (apply (Hroots root dirs fns); by apply elem_of_cons; left).
    rewrite IH by done. by rewrite <- app_assoc.
Qed.

Lemma for_walk_app (l1 l2 : list (string * list string * list string))
    (files : list (string * string)) :
  for_walk sep cwd cfg (l1 ++ l2) files
  = match for_walk sep cwd cfg l1 files with
    | Some files' => for_walk sep cwd cfg l2 files'
    | None => None
    end.
Proof.
  revert files. induction l1 as [|[[root dirs] fns] l1 IH]; intros files; [done |].
  cbn [app for_walk].
  destruct (skip_component sep root); [apply IH |].
  destruct (skip_substring root); [apply IH |].
  destruct (for_filenames sep cwd cfg root fns files); [apply IH | done].
Qed.

Lemma for_walk_skipped (entries : list (string * list string * list string))
    (files : list (string * string)) :
  (∀ root dirs fns, (root, dirs, fns) ∈ entries →
     skip_component sep root = true ∨ skip_substring root = true) →
  for_walk sep cwd cfg entries files = Some files.
Proof.
  induction entries as [|[[root dirs] fns] entries IH]; intros Hskip; [done |].
  cbn [for_walk].
  assert (IH' : for_walk sep cwd cfg entries files = Some files).
  { apply IH. intros r d f Hin. apply (Hskip r d f). by apply elem_of_cons; right. }
  destruct (Hskip root dirs fns) as [-> | Hsub]; [by apply elem_of_cons; left | done |].
  rewrite Hsub. by destruct (skip_component sep root).
Qed.

Lemma discover_files_eq (t : tree) :
  PyStr.truthy (SOURCE_DIR cfg) = true →
  discover_files sep cwd cfg t
  = Some (flat_map (entry_records sep cwd cfg) (os_walk sep (SOURCE_DIR cfg) t)).
Proof.
  intros Htop. unfold discover_files. rewrite for_walk_eq; [done |].
  intros root dirs fns. by apply os_walk_roots_truthy.
Qed.

(** Removing from the walk a segment whose directories are all skipped
    does not change the list of files. *)
Lemma discover_without_segment (t : tree)
    (before segment after : list (string * list string * list string)) :
  os_walk sep (SOURCE_DIR cfg) t = before ++ segment ++ after →
  (∀ files, for_walk sep cwd cfg segment files = Some files) →
  discover_files sep cwd cfg t = for_walk sep cwd cfg (before ++ after) [].
Proof.
  intros Hwalk Hseg. unfold discover_files.
  rewrite Hwalk, !for_walk_app.
  destruct (for_walk sep cwd cfg before []) as [files|]; [| done].
  by rewrite for_walk_app, Hseg.
Qed.

Lemma path_join_all_snoc (top : string) (p : list string) (n : string) :
  path_join_all sep top (p ++ [n]) = path_join sep (path_join_all sep top p) n.
Proof. unfold path_join_all. by rewrite fold_left_app. Qed.

Lemma path_join_all_keeps_component (c : string) (p : list string) (top : string) :
  wf_name sep c = true →
  Forall (λ n, wf_name sep n = true) p →
  has_component sep c top →
  has_component sep c (path_join_all sep top p).
Proof.
  intros Hc Hp. revert top. induction Hp as [|n p Hn Hp IH]; intros top Htop; [done |].
  cbn [path_join_all fold_left]. apply IH.
  apply join_keeps_component;
    [done | by apply wf_name_nonempty in Hc | by apply wf_name_no_sep
     | by apply wf_name_relative].
Qed.

Lemma path_join_all_component (c : string) (p : list string) (top : string) :
  Forall (λ n, wf_name sep n = true) p →
  c ∈ p →
  has_component sep c (path_join_all sep top p).
Proof.
  intros Hp. revert top. induction Hp as [|n p Hn Hp IH]; intros top Hin.
  - by apply elem_of_nil in Hin.
  - cbn [path_join_all fold_left].
    apply elem_of_cons in Hin as [-> | Hin]; [| by apply IH].
    apply (path_join_all_keeps_component n p _ Hn Hp).
    apply join_new_component. by apply wf_name_relative.
Qed.

End DiscoverFacts.

(** ** Facts about [normpath] and [relpath] *)

Section RelFacts.
Variable sep : ascii.
Variable cwd : string.

Local Abbreviation sps := (String sep EmptyString).

Lemma wf_name_clean (n : string) : wf_name sep n = true → clean sep n.
Proof.
  intros H. split; [| by apply wf_name_no_sep].
  apply truthy_nonempty. by apply (wf_name_nonempty sep).
Qed.

Lemma wf_name_plain (n : string) :
  wf_name sep n = true →
  (n =? EmptyString)%string = false ∧ (n =? ".")%string = false
  ∧ (n =? "..")%string = false.
Proof.
  unfold wf_name. intros H.
  apply andb_true_iff in H as [H H3]. apply andb_true_iff in H as [H H2].
  apply andb_true_iff in H as [H1 _].
  apply negb_true_iff in H2, H3. split; [| done].
  destruct n; [discriminate | reflexivity].
Qed.

Lemma split_fields_no_sep (s : string) :
  Forall (λ x, PyStr.contains sps x = false) (PyStr.split sep s).
Proof.
  induction s as [|x s IH]; cbn [PyStr.split].
  - by constructor.
  - destruct (Ascii.eqb_spec x sep) as [->|Hne]; [by constructor |].
    destruct (PyStr.split sep s) as [|h t]; inversion IH; subst.
    + constructor; [| done]. cbn. rewrite orb_false_r.
      destruct (Ascii.eqb_spec sep x); [congruence | reflexivity].
    + constructor; [| done]. cbn [PyStr.contains PyStr.startswith].
      destruct (Ascii.eqb_spec sep x); [congruence |]. done.
Qed.

(** The loop of [normpath]: a plain name at the end is pushed, an empty
    field at the end is dropped. *)
Lemma normpath_loop_push (i : nat) (acc l : list string) (n : string) :
  wf_name sep n = true →
  normpath_loop i acc (l ++ [n]) = normpath_loop i acc l ++ [n].
Proof.
  intros Hn. destruct (wf_name_plain n Hn) as (H1 & H2 & H3).
  revert acc. induction l as [|x l IH]; intros acc.
  - cbn [app normpath_loop]. rewrite H1, H2, H3. cbn. reflexivity.
  - cbn [app normpath_loop].
    destruct ((x =? EmptyString)%string || (x =? ".")%string); [apply IH |].
    destruct (negb (x =? "..")%string || _ || _); apply IH.
Qed.

Lemma normpath_loop_skip (i : nat) (acc l : list string) :
  normpath_loop i acc (l ++ [EmptyString]) = normpath_loop i acc l.
Proof.
  revert acc. induction l as [|x l IH]; intros acc; [reflexivity |].
  cbn [app normpath_loop].
  destruct ((x =? EmptyString)%string || (x =? ".")%string); [apply IH |].
  destruct (negb (x =? "..")%string || _ || _); apply IH.
Qed.

Lemma normpath_loop_clean (i : nat) (acc l : list string) :
  Forall (clean sep) acc →
  Forall (λ x, PyStr.contains sps x = false) l →
  Forall (clean sep) (normpath_loop i acc l).
Proof.
  intros Hacc Hl. revert acc Hacc.
  induction Hl as [|x l Hx Hl IH]; intros acc Hacc; cbn [normpath_loop].
  - by apply Forall_rev.
  - destruct (String.eqb_spec x EmptyString) as [->|Hne]; [by apply IH |].
    cbn [orb]. destruct (x =? ".")%string; [by apply IH |].
    destruct (negb (x =? "..")%string || _ || _).
    + apply IH. constructor; [| done]. split; [| done]. by apply truthy_nonempty.
    + apply IH. destruct acc; [done |]. by inversion Hacc.
Qed.

(** One more name on a path adds one component to what the loop of
    [normpath] keeps. *)
Lemma normpath_loop_join (i : nat) (acc : list string) (b n : string) :
  PyStr.truthy b = true →
  wf_name sep n = true →
  normpath_loop i acc (PyStr.split sep (path_join sep b n))
  = normpath_loop i acc (PyStr.split sep b) ++ [n].
Proof.
  intros Hb Hn.
  pose proof (wf_name_no_sep sep n Hn) as Hnosep.
  destruct (path_join_relative sep b n (wf_name_relative sep n Hn))
    as [[-> Hend] | [-> _]].
  - destruct Hend as [-> | Hend]; [discriminate |].
    destruct (endswith_inv _ _ Hend) as [b' ->].
    rewrite str_app_assoc, str_app_cons, str_app_nil_l.
    rewrite !split_app_sep, (split_no_sep _ _ Hnosep).
    change (PyStr.split sep EmptyString) with [EmptyString].
    by rewrite normpath_loop_push, normpath_loop_skip.
  - rewrite str_app_cons, str_app_nil_l.
    rewrite split_app_sep, (split_no_sep _ _ Hnosep).
    by rewrite normpath_loop_push.
Qed.

Lemma startswith_char_false (r : string) (k : nat) :
  PyStr.startswith sps r = false →
  PyStr.startswith (seps sep (S k)) r = false.
Proof.
  destruct r as [|c r]; [done |]. cbn.
  by destruct (Ascii.eqb sep c).
Qed.

(** Whether a path starts with [k] separators is not changed by what is
    appended to it, when a path that ends with a separator is continued
    by something else than a separator. *)
Lemma startswith_seps_app (k : nat) (b r : string) :
  b ≠ EmptyString →
  (PyStr.endswith sps b = true → PyStr.startswith sps r = false) →
  PyStr.startswith (seps sep k) (b +:+ r) = PyStr.startswith (seps sep k) b.
Proof.
  revert b. induction k as [|k IH]; intros b Hb Hr; [done |].
  destruct b as [|c b]; [done |]. rewrite str_app_cons.
  cbn [seps PyStr.startswith].
  destruct (Ascii.eqb_spec sep c) as [<-|Hne]; [| done].
  destruct b as [|c' b].
  - rewrite str_app_nil_l.
    assert (Hr' : PyStr.startswith sps r = false).
    { apply Hr. cbn. by rewrite Ascii.eqb_refl. }
    destruct k as [|k]; [by destruct r |].
    rewrite (startswith_char_false r k Hr'). reflexivity.
  - apply IH; [done |]. intros Hend. apply Hr.
    change (String sep (String c' b)) with (sps +:+ String c' b).
    by rewrite endswith_char_app.
Qed.

Lemma initial_slashes_app (b r : string) :
  b ≠ EmptyString →
  (PyStr.endswith sps b = true → PyStr.startswith sps r = false) →
  initial_slashes sep (b +:+ r) = initial_slashes sep b.
Proof.
  intros Hb Hr. unfold initial_slashes.
  change (sep_str sep) with (seps sep 1).
  change (seps sep 1 +:+ seps sep 1 +:+ seps sep 1) with (seps sep 3).
  change (seps sep 1 +:+ seps sep 1) with (seps sep 2).
  by rewrite !startswith_seps_app.
Qed.

Lemma initial_slashes_join (b n : string) :
  PyStr.truthy b = true →
  wf_name sep n = true →
  initial_slashes sep (path_join sep b n) = initial_slashes sep b.
Proof.
  intros Hb Hn. apply truthy_nonempty in Hb.
  pose proof (wf_name_relative sep n Hn) as Hrel.
  destruct (path_join_relative sep b n Hrel) as [[-> _] | [-> [_ Hend]]].
  - by apply initial_slashes_app.
  - apply initial_slashes_app; [done |]. intros H. by rewrite H in Hend.
Qed.

Lemma startswith_char_app (x r : string) :
  x ≠ EmptyString →
  PyStr.startswith sps (x +:+ r) = PyStr.startswith sps x.
Proof.
  intros Hx. destruct x as [|c x]; [done |]. rewrite str_app_cons. cbn.
  by destruct (Ascii.eqb sep c).
Qed.

Lemma path_join_app_l (z x n : string) :
  x ≠ EmptyString →
  PyStr.startswith sps n = false →
  path_join sep (z +:+ x) n = z +:+ path_join sep x n.
Proof.
  intros Hx Hn. unfold path_join, sep_str. rewrite Hn.
  rewrite endswith_char_app by done.
  assert (Hzx : PyStr.truthy (z +:+ x) = true).
  { apply truthy_nonempty. intros H. by apply str_app_eq_nil in H as [_ ?]. }
  rewrite Hzx. apply truthy_nonempty in Hx. rewrite Hx. cbn [negb orb].
  destruct (PyStr.endswith sps x); by rewrite !str_app_assoc.
Qed.

(** What [abspath] normalises commutes with joining a name. *)
Lemma absolute_input_join (x n : string) :
  PyStr.truthy x = true →
  wf_name sep n = true →
  absolute_input sep cwd (path_join sep x n)
  = path_join sep (absolute_input sep cwd x) n.
Proof.
  intros Hx Hn. apply truthy_nonempty in Hx.
  pose proof (wf_name_relative sep n Hn) as Hrel.
  unfold absolute_input.
  destruct (path_join_prefix sep x n Hrel) as [r Hr].
  rewrite Hr, (startswith_char_app x r Hx), <- Hr.
  destruct (PyStr.startswith sps x) eqn:Hxabs; [done |].
  assert (Hpjrel : PyStr.startswith sps (path_join sep x n) = false).
  { by rewrite Hr, (startswith_char_app x r Hx). }
  destruct (path_join_relative sep cwd x Hxabs) as [[Hc Hcw] | [Hc [Hcw Hcw']]];
    destruct (path_join_relative sep cwd (path_join sep x n) Hpjrel)
      as [[Hc2 Hcw2] | [Hc2 [Hcw2 Hcw2']]]; rewrite Hc, Hc2.
  - by rewrite path_join_app_l.
  - exfalso. destruct Hcw as [-> | Hcw]; [done | congruence].
  - exfalso. destruct Hcw2 as [-> | Hcw2]; [done | congruence].
  - rewrite <- !str_app_assoc. by rewrite path_join_app_l.
Qed.

Lemma abspath_normpath (x : string) :
  abspath sep cwd x = normpath sep (absolute_input sep cwd x).
Proof.
  unfold abspath, absolute_input, sep_str. by destruct (PyStr.startswith sps x).
Qed.

Lemma absolute_input_absolute (x : string) :
  PyStr.startswith sps cwd = true →
  PyStr.startswith sps (absolute_input sep cwd x) = true.
Proof.
  intros Hcwd. unfold absolute_input.
  destruct (PyStr.startswith sps x) eqn:Hx; [done |].
  destruct (path_join_prefix sep cwd x Hx) as [r ->].
  by apply startswith_app_r.
Qed.

Lemma startswith_truthy (x : string) :
  PyStr.startswith sps x = true → PyStr.truthy x = true.
Proof. by destruct x. Qed.

(** [normpath] of an absolute path: the leading separators, then the
    components the loop keeps, joined. *)
Lemma normpath_absolute (b : string) :
  PyStr.startswith sps b = true →
  normpath sep b
  = seps sep (initial_slashes sep b)
    +:+ PyStr.join sps
          (normpath_loop (initial_slashes sep b) [] (PyStr.split sep b)).
Proof.
  intros Hb. unfold normpath. rewrite (startswith_truthy b Hb). cbn [negb].
  cbv zeta.
  assert (Hi : initial_slashes sep b = 1%nat ∨ initial_slashes sep b = 2%nat).
  { unfold initial_slashes, sep_str. rewrite Hb.
    destruct (_ && _); [by right | by left]. }
  destruct Hi as [-> | ->]; reflexivity.
Qed.

Lemma split_seps (k : nat) (s : string) :
  PyStr.split sep (seps sep k +:+ s) = replicate k EmptyString ++ PyStr.split sep s.
Proof.
  induction k as [|k IH]; [done |].
  cbn [seps]. rewrite str_app_cons. cbn [PyStr.split].
  by rewrite Ascii.eqb_refl, IH.
Qed.

Lemma filter_truthy_empties (k : nat) (l : list string) :
  filter (λ x, PyStr.truthy x = true) (replicate k EmptyString ++ l)
  = filter (λ x, PyStr.truthy x = true) l.
Proof.
  induction k as [|k IH]; [done |]. cbn [replicate app].
  by rewrite filter_cons_False.
Qed.

Lemma filter_split_join (l : list string) :
  Forall (clean sep) l →
  filter (λ x, PyStr.truthy x = true) (PyStr.split sep (PyStr.join sps l)) = l.
Proof.
  induction 1 as [|x l [Hx1 Hx2] Hl IH]; [done |].
  destruct l as [|y l].
  - cbn [PyStr.join]. rewrite (split_no_sep _ _ Hx2).
    by rewrite filter_cons_True.
  - change (PyStr.join sps (x :: y :: l))
      with (x +:+ sps +:+ PyStr.join sps (y :: l)).
    rewrite str_app_cons, str_app_nil_l, split_app_sep, (split_no_sep _ _ Hx2).
    cbn [app]. rewrite filter_cons_True by done. by rewrite IH.
Qed.

Lemma commonprefix_len_app (l r : list string) :
  commonprefix_len l (l ++ r) = length l.
Proof.
  induction l as [|x l IH]; [by destruct r |].
  cbn. by rewrite String.eqb_refl, IH.
Qed.

Lemma join_sepcat (x : string) (l : list string) :
  PyStr.join sps (x :: l) = x +:+ sepcat sep l.
Proof.
  revert x. induction l as [|n l IH]; intros x.
  - cbn. by rewrite str_app_nil_r.
  - change (PyStr.join sps (x :: n :: l)) with (x +:+ sps +:+ PyStr.join sps (n :: l)).
    by rewrite IH.
Qed.

Lemma path_join_all_sepcat (acc : string) (l : list string) :
  acc ≠ EmptyString →
  PyStr.endswith sps acc = false →
  Forall (λ n, wf_name sep n = true) l →
  path_join_all sep acc l = acc +:+ sepcat sep l.
Proof.
  intros Hacc Hend Hl. revert acc Hacc Hend.
  induction Hl as [|n l Hn Hl IH]; intros acc Hacc Hend.
  - cbn. by rewrite str_app_nil_r.
  - cbn [path_join_all fold_left sepcat].
    destruct (path_join_relative sep acc n (wf_name_relative sep n Hn))
      as [[_ [Hc | Hc]] | [Hj _]]; [done | congruence |].
    rewrite Hj. fold (path_join_all sep (acc +:+ sps +:+ n) l).
    rewrite IH.
    + by rewrite !str_app_assoc.
    + intros H. by apply str_app_eq_nil in H as [? _].
    + rewrite <- str_app_assoc.
      rewrite endswith_char_app by (by apply (wf_name_nonempty sep)).
      apply endswith_char_no_sep. by apply wf_name_no_sep.
Qed.

Lemma path_join_all_names (x : string) (l : list string) :
  Forall (λ n, wf_name sep n = true) (x :: l) →
  path_join_all sep x l = PyStr.join sps (x :: l).
Proof.
  intros H. inversion H as [|? ? Hx Hl]; subst.
  rewrite join_sepcat. apply path_join_all_sepcat; [| | done].
  - by apply (wf_name_nonempty sep).
  - apply endswith_char_no_sep. by apply wf_name_no_sep.
Qed.

Lemma path_join_all_truthy (top : string) (q : list string) :
  PyStr.truthy top = true → PyStr.truthy (path_join_all sep top q) = true.
Proof.
  revert top. induction q as [|n q IH]; intros top Htop; [done |].
  cbn [path_join_all fold_left]. apply IH. by apply path_join_truthy.
Qed.

Lemma absolute_input_join_all (top : string) (q : list string) :
  PyStr.truthy top = true →
  Forall (λ n, wf_name sep n = true) q →
  absolute_input sep cwd (path_join_all sep top q)
  = path_join_all sep (absolute_input sep cwd top) q.
Proof.
  intros Htop Hq. revert top Htop.
  induction Hq as [|n q Hn Hq IH]; intros top Htop; [done |].
  cbn [path_join_all fold_left].
  fold (path_join_all sep (path_join sep top n) q).
  rewrite IH by (by apply path_join_truthy).
  by rewrite absolute_input_join.
Qed.

(** The components of an absolute path with names joined to it are its
    own components followed by the names. *)
Lemma normpath_join_all (b : string) (q : list string) :
  PyStr.startswith sps b = true →
  Forall (λ n, wf_name sep n = true) q →
  PyStr.startswith sps (path_join_all sep b q) = true
  ∧ initial_slashes sep (path_join_all sep b q) = initial_slashes sep b
  ∧ ∀ i acc,
      normpath_loop i acc (PyStr.split sep (path_join_all sep b q))
      = normpath_loop i acc (PyStr.split sep b) ++ q.
Proof.
  intros Hb Hq. revert b Hb.
  induction Hq as [|n q Hn Hq IH]; intros b Hb.
  - split; [done |]. split; [done |]. intros i acc. by rewrite app_nil_r.
  - cbn [path_join_all fold_left].
    fold (path_join_all sep (path_join sep b n) q).
    pose proof (startswith_truthy b Hb) as Htr.
    assert (Hb' : PyStr.startswith sps (path_join sep b n) = true).
    { destruct (path_join_prefix sep b n (wf_name_relative sep n Hn)) as [r ->].
      by apply startswith_app_r. }
    destruct (IH _ Hb') as (H1 & H2 & H3).
    split; [done |]. split; [by rewrite H2, initial_slashes_join |].
    intros i acc. rewrite H3, normpath_loop_join by done.
    by rewrite <- app_assoc.
Qed.

(** [relpath] of a path made by joining names to [top], relative to
    [top]: the names, joined by the separator. *)
Lemma relpath_join_all (top : string) (q : list string) :
  PyStr.startswith sps cwd = true →
  PyStr.truthy top = true →
  Forall (λ n, wf_name sep n = true) q →
  q ≠ [] →
  relpath sep cwd (path_join_all sep top q) top = Some (PyStr.join sps q).
Proof.
  intros Hcwd Htop Hq Hne.
  unfold relpath. rewrite (path_join_all_truthy top q Htop). cbn [negb]. cbv zeta.
  rewrite !abspath_normpath, absolute_input_join_all by done.
  set (b := absolute_input sep cwd top).
  pose proof (absolute_input_absolute top Hcwd) as Hb. fold b in Hb.
  destruct (normpath_join_all b q Hb Hq) as (Hbq & Hi & Hloop).
  rewrite (normpath_absolute _ Hbq), (normpath_absolute _ Hb), Hi, Hloop.
  set (i := initial_slashes sep b).
  set (comps := normpath_loop i [] (PyStr.split sep b)).
  assert (Hcomps : Forall (clean sep) comps).
  { apply normpath_loop_clean; [constructor | apply split_fields_no_sep]. }
  assert (Hall : Forall (clean sep) (comps ++ q)).
  { apply Forall_app. split; [done |].
    eapply Forall_impl; [exact Hq |]. intros n Hn. by apply wf_name_clean. }
  rewrite !split_seps, !filter_truthy_empties, !filter_split_join by done.
  rewrite commonprefix_len_app, Nat.sub_diag, drop_app_length. cbn [replicate app].
  destruct q as [|x l]; [done |]. by rewrite path_join_all_names.
Qed.

End RelFacts.

Section RunFacts.
Context {store : Type}.
Variable urlopen : store → request → reply * store.
Variable read_file : string → option (list byte).
Variable sep : ascii.
Variable cwd : string.
Variable source_tree : tree.
Variable cfg : config.

Lemma bind_unfold {A B} (m : M store A) (f : A → M store B) (w : world store) :
  (m ≫= f) w =
    match m w with
    | (Return a, w') => f a w'
    | (Raise e, w') => (Raise e, w')
    | (SysExit status, w') => (SysExit status, w')
    end.
Proof. reflexivity. Qed.

Lemma urlopen_json_run (rq : request) (w : world store) :
  urlopen_json urlopen rq w =
    (match reply_of urlopen w rq with
     | inl body => Return body
     | inr e => Raise e
     end, record_call urlopen w rq).
Proof.
  unfold urlopen_json, reply_of, record_call.
  destruct (urlopen (remote w) rq) as [[body|e] st]; reflexivity.
Qed.

Lemma api_get_run (path : string) (w : world store) :
  api_get urlopen cfg path w =
    (match reply_of urlopen w (get_request cfg path) with
     | inl body => Return (inl body)
     | inr (EHTTPError e) => Return (inr e)
     | inr e => Raise e
     end, record_call urlopen w (get_request cfg path)).
Proof.
  unfold api_get, try_except_http, mbind, M_bind, bind, mret, M_ret, ret.
  rewrite urlopen_json_run. fold (get_request cfg path).
  destruct (reply_of urlopen w (get_request cfg path)) as [body|[e|msg]]; reflexivity.
Qed.

Lemma quote_some (rel q : string) :
  quote rel = Some q → q = quote_from_bytes rel ∧ PyStr.utf8_valid rel = true.
Proof.
  unfold quote, PyStr.encode. destruct (PyStr.utf8_valid rel); [| discriminate].
  by intros [= <-].
Qed.

Lemma quote_none (rel : string) :
  quote rel = None → PyStr.utf8_valid rel = false.
Proof.
  unfold quote, PyStr.encode. by destruct (PyStr.utf8_valid rel).
Qed.

(** The existence query of [upload_file] never fails: it yields the
    value bound to [sha]. *)
Lemma upload_query_run (rel q : string) (w : world store) :
  quote rel = Some q →
  try_except
    (q ← quoted rel;
     existing ← api_get urlopen cfg (contents_path cfg q +:+ "?ref=" +:+ BRANCH cfg);
     match existing with
     | inr _ => raise (EException "not found")
     | inl existing => dict_get existing "sha"
     end)
    (λ _, ret JNull) w =
  (Return (sha_of_reply (reply_of urlopen w (get_contents_request cfg rel))),
   record_call urlopen w (get_contents_request cfg rel)).
Proof.
  intros Hq. destruct (quote_some _ _ Hq) as [-> _].
  unfold try_except, quoted, mbind, M_bind, bind. rewrite Hq. unfold ret at 1.
  rewrite api_get_run.
  fold (get_contents_request cfg rel).
  destruct (reply_of urlopen w (get_contents_request cfg rel)) as [body|[e|msg]]; cbn;
    try reflexivity.
  destruct body; reflexivity.
Qed.

(** When [quote] fails the query is not made, and [sha] is [None]. *)
Lemma upload_query_unquotable (rel : string) (w : world store) :
  quote rel = None →
  try_except
    (q ← quoted rel;
     existing ← api_get urlopen cfg (contents_path cfg q +:+ "?ref=" +:+ BRANCH cfg);
     match existing with
     | inr _ => raise (EException "not found")
     | inl existing => dict_get existing "sha"
     end)
    (λ _, ret JNull) w = (Return JNull, w).
Proof.
  intros Hq. unfold try_except, quoted, mbind, M_bind, bind. by rewrite Hq.
Qed.

Lemma api_put_run (path : string) (payload : gmap string json) (w : world store) :
  api_put urlopen cfg path payload w =
    urlopen_json urlopen (Request PUT (API_BASE +:+ path) (json_headers cfg) (Some payload)) w.
Proof. reflexivity. Qed.

(** The write of [upload_file], with its handler. *)
Lemma upload_write_run (content : list byte) (rel q : string) (sha : json)
    (w : world store) :
  quote rel = Some q →
  let put_rq := put_contents_request cfg content rel sha in
  try_except_http
    (q ← quoted rel;
     api_put urlopen cfg (contents_path cfg q) (put_payload cfg content rel sha);;
     print ("Uploaded " +:+ rel))
    (λ e, print ("Failed to upload " +:+ rel +:+ " status " +:+ pretty (code e));;
          body ← read_decode e;
          print body;;
          sys_exit 5) w =
  match reply_of urlopen w put_rq with
  | inl _ => (Return tt, record_print (record_call urlopen w put_rq) [uploaded_line rel])
  | inr (EHTTPError e) =>
      (rejected_outcome e,
       record_print (record_call urlopen w put_rq) (rejected_lines rel e))
  | inr e => (Raise e, record_call urlopen w put_rq)
  end.
Proof.
  intros Hq. destruct (quote_some _ _ Hq) as [-> _].
  cbv zeta. unfold try_except_http, quoted, mbind, M_bind, bind. rewrite Hq.
  unfold ret at 1.
  rewrite api_put_run, urlopen_json_run. fold (put_contents_request cfg content rel sha).
  destruct (reply_of urlopen w (put_contents_request cfg content rel sha)) as [body|[e|msg]];
    try reflexivity.
  unfold rejected_outcome, rejected_lines, read_decode, PyStr.decode.
  destruct (PyStr.utf8_valid (err_body e)).
  - unfold print, sys_exit, ret, record_print; cbn. by rewrite <- app_assoc.
  - unfold print, raise, record_print; cbn. reflexivity.
Qed.

(** When [quote] fails the write is not made: the exception is not an
    [HTTPError] and leaves [upload_file]. *)
Lemma upload_write_unquotable (content : list byte) (rel : string) (sha : json)
    (w : world store) :
  quote rel = None →
  try_except_http
    (q ← quoted rel;
     api_put urlopen cfg (contents_path cfg q) (put_payload cfg content rel sha);;
     print ("Uploaded " +:+ rel))
    (λ e, print ("Failed to upload " +:+ rel +:+ " status " +:+ pretty (code e));;
          body ← read_decode e;
          print body;;
          sys_exit 5) w =
  (Raise (EException "UnicodeEncodeError"), w).
Proof.
  intros Hq. unfold try_except_http, quoted, mbind, M_bind, bind. by rewrite Hq.
Qed.

Lemma upload_file_run (full rel q : string) (content : list byte) (w : world store) :
  read_file full = Some content →
  quote rel = Some q →
  let get_rq := get_contents_request cfg rel in
  let w1 := record_call urlopen w get_rq in
  let put_rq := put_contents_request cfg content rel (sha_of_reply (reply_of urlopen w get_rq)) in
  let w2 := record_call urlopen w1 put_rq in
  upload_file urlopen read_file cfg full rel w =
    match reply_of urlopen w1 put_rq with
    | inl _ => (Return tt, record_print w2 [uploaded_line rel])
    | inr (EHTTPError e) => (rejected_outcome e, record_print w2 (rejected_lines rel e))
    | inr e => (Raise e, w2)
    end.
Proof.
  intros Hread Hq. cbv zeta.
  unfold upload_file. rewrite Hread.
  rewrite bind_unfold. unfold mret, M_ret, ret at 1. cbv beta iota zeta.
  rewrite bind_unfold, (upload_query_run _ _ _ Hq).
  apply (upload_write_run _ _ _ _ _ Hq).
Qed.

(** A relative path that cannot be encoded: nothing is sent. *)
Lemma upload_file_unquotable (full rel : string) (content : list byte)
    (w : world store) :
  read_file full = Some content →
  quote rel = None →
  upload_file urlopen read_file cfg full rel w
  = (Raise (EException "UnicodeEncodeError"), w).
Proof.
  intros Hread Hq.
  unfold upload_file. rewrite Hread.
  rewrite bind_unfold. unfold mret, M_ret, ret at 1. cbv beta iota zeta.
  rewrite bind_unfold, (upload_query_unquotable _ _ Hq).
  apply (upload_write_unquotable _ _ _ _ Hq).
Qed.

Lemma upload_file_unreadable (full rel : string) (w : world store) :
  read_file full = None →
  upload_file urlopen read_file cfg full rel w = (Raise (EException "OSError"), w).
Proof. intros Hread. unfold upload_file. rewrite Hread. reflexivity. Qed.

Lemma ensure_branch_run (w : world store) :
  ensure_branch urlopen cfg w = ensure_branch_result urlopen cfg w.
Proof.
  unfold ensure_branch, ensure_branch_result.
  rewrite bind_unfold. unfold print at 1. fold (ensuring_line cfg).
  change (World (remote w) (trace w) (stdout w ++ [(ensuring_line cfg)]) (stdin w))
    with (record_print w [(ensuring_line cfg)]).
  cbv beta iota zeta.
  rewrite bind_unfold, api_get_run.
  destruct (reply_of urlopen _ (get_request cfg (ref_path cfg (BASE_BRANCH cfg)))) as [r|[e|msg]];
    [| reflexivity | reflexivity].
  unfold base_sha_of, subscript.
  rewrite bind_unfold.
  destruct (getitem r "object") as [obj|e]; [| reflexivity].
  unfold ret at 1. cbv beta iota.
  rewrite bind_unfold.
  destruct (getitem obj "sha") as [base_sha|e]; [| reflexivity].
  unfold ret at 1. cbv beta iota.
  rewrite bind_unfold, api_get_run.
  destruct (reply_of urlopen _ (get_request cfg (ref_path cfg (BRANCH cfg)))) as [r'|[e|msg]];
    [reflexivity | | reflexivity].
  unfold try_except. rewrite bind_unfold.
  unfold api_post. rewrite urlopen_json_run.
  fold (create_ref_request cfg (BRANCH cfg) base_sha).
  destruct (reply_of urlopen _ (create_ref_request cfg (BRANCH cfg) base_sha)) as [r'|e'];
    reflexivity.
Qed.

Lemma new_calls_app (w w' : world store) (new : list (request * reply)) :
  trace w' = trace w ++ new → new_calls w w' = new.
Proof. intros H. unfold new_calls. rewrite H. apply drop_app_length. Qed.

Lemma upload_file_new_calls (full rel q : string) (content : list byte)
    (w : world store) :
  read_file full = Some content →
  quote rel = Some q →
  let get_rq := get_contents_request cfg rel in
  let put_rq := put_contents_request cfg content rel (sha_of_reply (reply_of urlopen w get_rq)) in
  trace (upload_file urlopen read_file cfg full rel w).2 =
    trace w ++ [(get_rq, reply_of urlopen w get_rq);
                (put_rq, reply_of urlopen (record_call urlopen w get_rq) put_rq)].
Proof.
  intros Hread Hq. cbv zeta. rewrite (upload_file_run _ _ _ _ _ Hread Hq).
  unfold record_print, record_call, reply_of; cbn.
  destruct (urlopen _ (put_contents_request cfg _ _ _)).1 as [body|[e|msg]]; cbn;
    by rewrite <- app_assoc.
Qed.



End RunFacts.

(** ** Create or update: the token in the write of [upload_file] *)

Lemma put_payload_sha_absent (cfg : config) (content : list byte) (rel : string) :
  put_payload cfg content rel JNull !! "sha" = None.
Proof. reflexivity. Qed.

Lemma put_payload_sha_present (cfg : config) (content : list byte) (rel : string)
    (token : json) :
  Json.truthy token = true →
  put_payload cfg content rel token !! "sha" = Some token.
Proof.
  intros Htok. unfold put_payload. rewrite Htok. apply lookup_insert_eq.
Qed.

Lemma put_payload_message (cfg : config) (content : list byte) (rel : string)
    (sha : json) :
  put_payload cfg content rel sha !! "message"
  = Some (JStr (COMMIT_PREFIX cfg +:+ " add " +:+ rel)).
Proof.
  unfold put_payload. destruct (Json.truthy sha).
  - rewrite lookup_insert_ne by done. apply lookup_insert_eq.
  - apply lookup_insert_eq.
Qed.

(** C1. For every file upload whose file can be read and whose relative
    path can be percent-encoded, [upload_file] makes exactly two remote
    calls, the existence query and the PUT.  When the query fails in any
    way (an HTTP error such as 404, or any other exception) the PUT payload
    has no ["sha"] entry (create mode); when the query succeeds with a
    dictionary holding a token (a value that Python takes as true, such as
    a non-empty string) under ["sha"], the PUT payload carries that token
    under ["sha"] (update mode). *)
Theorem upload_file_create_or_update :
  ∀ (store : Type) (urlopen : store → request → reply * store)
    (read_file : string → option (list byte)) (cfg : config)
    (full rel q : string) (content : list byte) (w : world store),
    read_file full = Some content →
    quote rel = Some q →
    let query :=
      Request GET (API_BASE +:+ contents_path cfg q +:+ "?ref=" +:+ BRANCH cfg)
        (base_headers cfg) None in
    let answer := reply_of urlopen w query in
    ∃ (payload : gmap string json) (put_reply : reply),
      new_calls w (upload_file urlopen read_file cfg full rel w).2
      = [(query, answer);
         (Request PUT (API_BASE +:+ contents_path cfg q) (json_headers cfg)
            (Some payload), put_reply)]
      ∧ (∀ e : exn, answer = inr e → payload !! "sha" = None)
      ∧ (∀ (m : gmap string json) (token : json),
           answer = inl (JObj m) → m !! "sha" = Some token →
           Json.truthy token = true →
           payload !! "sha" = Some token).
Proof.
  intros store urlopen read_file cfg full rel q content w Hread Hq query answer.
  destruct (quote_some _ _ Hq) as [-> _].
  exists (put_payload cfg content rel (sha_of_reply answer)).
  eexists. split; [| split].
  - apply new_calls_app.
    apply (upload_file_new_calls urlopen read_file cfg _ _ _ _ _ Hread Hq).
  - intros e He. rewrite He. apply put_payload_sha_absent.
  - intros m token Hm Htok Htrue. rewrite Hm. cbn. rewrite Htok. cbn.
    by apply put_payload_sha_present.
Qed.

Lemma upload_file_create_or_update_witness :
  let w := init_world [not_found; inl JNull] [] in
  let w' := init_world [found "3b18e5"; inl JNull] [] in
  (∃ payload put_reply,
      new_calls w (upload_file Scripted.urlopen (Scripted.read_from [("./a.txt", hello)])
                     example_config "./a.txt" "a.txt" w).2
      = [(get_contents_request example_config "a.txt", not_found);
         (Request PUT (API_BASE +:+ contents_path example_config "a.txt")
            (json_headers example_config) (Some payload), put_reply)]
      ∧ payload !! "sha" = None)
  ∧ (∃ payload put_reply,
      new_calls w' (upload_file Scripted.urlopen (Scripted.read_from [("./a.txt", hello)])
                     example_config "./a.txt" "a.txt" w').2
      = [(get_contents_request example_config "a.txt", found "3b18e5");
         (Request PUT (API_BASE +:+ contents_path example_config "a.txt")
            (json_headers example_config) (Some payload), put_reply)]
      ∧ payload !! "sha" = Some (JStr "3b18e5")).
Proof.
  split.
  - destruct (upload_file_create_or_update Scripted.store Scripted.urlopen
                (Scripted.read_from [("./a.txt", hello)]) example_config
                "./a.txt" "a.txt" "a.txt" hello (init_world [not_found; inl JNull] [])
                eq_refl eq_refl) as (payload & put_reply & Hcalls & Hcreate & _).
    exists payload, put_reply. split; [exact Hcalls |].
    exact (Hcreate _ eq_refl).
  - destruct (upload_file_create_or_update Scripted.store Scripted.urlopen
                (Scripted.read_from [("./a.txt", hello)]) example_config
                "./a.txt" "a.txt" "a.txt" hello (init_world [found "3b18e5"; inl JNull] [])
                eq_refl eq_refl) as (payload & put_reply & Hcalls & _ & Hupdate).
    exists payload, put_reply. split; [exact Hcalls |].
    exact (Hupdate {[ "sha" := JStr "3b18e5" ]} (JStr "3b18e5") eq_refl eq_refl eq_refl).
Defined.

(** ** The commit message *)

(** C5, as amended.  For every uploaded file, the commit message in the PUT
    payload is the commit-message prefix, then the word [add] between two
    spaces, then the file's relative path. *)
Theorem upload_file_commit_message :
  ∀ (store : Type) (urlopen : store → request → reply * store)
    (read_file : string → option (list byte)) (cfg : config)
    (full rel : string) (content : list byte) (w : world store),
    read_file full = Some content →
    ∀ (rq : request) (rp : reply),
      (rq, rp) ∈ new_calls w (upload_file urlopen read_file cfg full rel w).2 →
      meth rq = PUT →
      ∃ payload : gmap string json,
        data rq = Some payload
        ∧ payload !! "message" = Some (JStr (COMMIT_PREFIX cfg +:+ " add " +:+ rel)).
Proof.
  intros store urlopen read_file cfg full rel content w Hread rq rp Hin Hput.
  destruct (quote rel) as [q|] eqn:Hq.
  2:{ rewrite (upload_file_unquotable urlopen read_file cfg _ _ _ _ Hread Hq) in Hin.
      cbn [snd] in Hin. rewrite (new_calls_app w w []) in Hin by (by rewrite app_nil_r).
      by apply elem_of_nil in Hin. }
  rewrite (new_calls_app _ _ _
             (upload_file_new_calls urlopen read_file cfg _ _ _ _ _ Hread Hq)) in Hin.
  apply elem_of_cons in Hin as [Heq | Hin].
  { inversion Heq; subst. discriminate Hput. }
  apply list_elem_of_singleton in Hin. inversion Hin; subst.
  eexists. split; [reflexivity |]. apply put_payload_message.
Qed.

Lemma upload_file_commit_message_witness :
  ∃ payload : gmap string json,
    data (put_contents_request example_config hello "a.txt" JNull) = Some payload
    ∧ payload !! "message" = Some (JStr "chore(verifier): add a.txt").
Proof.
  apply (upload_file_commit_message Scripted.store Scripted.urlopen
           (Scripted.read_from [("./a.txt", hello)]) example_config
           "./a.txt" "a.txt" hello (init_world [not_found; inl JNull] []) eq_refl
           (put_contents_request example_config hello "a.txt" JNull) (inl JNull)).
  - rewrite (new_calls_app _ _ _
               (upload_file_new_calls Scripted.urlopen
                  (Scripted.read_from [("./a.txt", hello)]) example_config
                  "./a.txt" "a.txt" "a.txt" hello (init_world [not_found; inl JNull] [])
                  eq_refl eq_refl)).
    apply elem_of_cons. right. apply elem_of_cons. left. reflexivity.
  - reflexivity.
Defined.

(** C5 as stated fails: with the prefix [chore(verifier):] and the path
    [a.txt] the message is not the plain concatenation of the two. *)
Lemma commit_message_not_prefix_then_path :
  ¬ (∀ (store : Type) (urlopen : store → request → reply * store)
       (read_file : string → option (list byte)) (cfg : config)
       (full rel : string) (content : list byte) (w : world store),
       read_file full = Some content →
       ∀ (rq : request) (rp : reply),
         (rq, rp) ∈ new_calls w (upload_file urlopen read_file cfg full rel w).2 →
         meth rq = PUT →
         ∃ payload : gmap string json,
           data rq = Some payload
           ∧ payload !! "message" = Some (JStr (COMMIT_PREFIX cfg +:+ rel))).
Proof.
  intros H.
  pose (rd := Scripted.read_from [("./a.txt", hello)]).
  pose (w := init_world (store := Scripted.store) [not_found; inl JNull] []).
  assert (Hread : rd "./a.txt" = Some hello) by reflexivity.
  pose proof (upload_file_new_calls Scripted.urlopen rd example_config
                "./a.txt" "a.txt" "a.txt" hello w Hread eq_refl) as Htrace.
  cbv zeta in Htrace.
  specialize (H Scripted.store Scripted.urlopen rd example_config
                "./a.txt" "a.txt" hello w Hread
                (put_contents_request example_config hello "a.txt"
                   (sha_of_reply (reply_of Scripted.urlopen w
                                    (get_contents_request example_config "a.txt"))))
                (reply_of Scripted.urlopen
                   (record_call Scripted.urlopen w
                      (get_contents_request example_config "a.txt"))
                   (put_contents_request example_config hello "a.txt"
                      (sha_of_reply (reply_of Scripted.urlopen w
                                       (get_contents_request example_config "a.txt")))))).
  rewrite (new_calls_app _ _ _ Htrace) in H.
  destruct H as (payload & Hdata & Hmsg).
  - apply elem_of_cons. right. apply elem_of_cons. by left.
  - reflexivity.
  - unfold put_contents_request in Hdata. cbn [data] in Hdata.
    injection Hdata as <-.
    rewrite put_payload_message in Hmsg. discriminate Hmsg.
Qed.

(** ** The calls of [ensure_branch], of the upload loop and of [main] *)

Section RunLogs.
Context {store : Type}.
Variable urlopen : store → request → reply * store.
Variable read_file : string → option (list byte).
Variable sep : ascii.
Variable cwd : string.
Variable source_tree : tree.
Variable cfg : config.

Lemma trace_record_call (w : world store) (rq : request) :
  trace (record_call urlopen w rq) = trace w ++ [(rq, reply_of urlopen w rq)].
Proof. reflexivity. Qed.

Lemma trace_record_print (w : world store) (lines : list string) :
  trace (record_print w lines) = trace w.
Proof. reflexivity. Qed.

Lemma ensure_branch_log (w : world store) :
  ∃ new : list (request * reply),
    trace (ensure_branch urlopen cfg w).2 = trace w ++ new
    ∧ ensure_log cfg new (ensure_branch urlopen cfg w).1.
Proof.
  rewrite ensure_branch_run. unfold ensure_branch_result.
  set (w0 := record_print w [ensuring_line cfg]).
  set (rq_base := get_request cfg (ref_path cfg (BASE_BRANCH cfg))).
  set (rq_target := get_request cfg (ref_path cfg (BRANCH cfg))).
  assert (Htr1 : trace (record_call urlopen w0 rq_base)
                 = trace w ++ [(rq_base, reply_of urlopen w0 rq_base)]).
  { by rewrite trace_record_call. }
  destruct (reply_of urlopen w0 rq_base) as [r|[e|msg]].
  2:{ eexists. split; [exact Htr1 |]. constructor. }
  2:{ eexists. split; [exact Htr1 |]. constructor. }
  destruct (base_sha_of r) as [base_sha|e] eqn:Esha.
  2:{ eexists. split; [exact Htr1 |]. by constructor. }
  set (w1 := record_call urlopen w0 rq_base) in *.
  assert (Htr2 : trace (record_call urlopen w1 rq_target)
                 = trace w ++ [(rq_base, inl r); (rq_target, reply_of urlopen w1 rq_target)]).
  { rewrite trace_record_call, Htr1. by rewrite <- app_assoc. }
  destruct (reply_of urlopen w1 rq_target) as [r'|[e|msg]].
  - eexists. split; [exact Htr2 |]. by econstructor.
  - set (w2 := record_call urlopen w1 rq_target) in *.
    set (rq_create := create_ref_request cfg (BRANCH cfg) base_sha).
    assert (Htr3 : trace (record_call urlopen w2 rq_create)
                   = trace w ++ [(rq_base, inl r); (rq_target, inr (EHTTPError e));
                                 (rq_create, reply_of urlopen w2 rq_create)]).
    { rewrite trace_record_call, Htr2. by rewrite <- app_assoc. }
    destruct (reply_of urlopen w2 rq_create) as [body|e'].
    + eexists. split; [exact Htr3 |]. by econstructor.
    + eexists. split; [exact Htr3 |]. by econstructor.
  - eexists. split; [exact Htr2 |]. by econstructor.
Qed.

Lemma upload_all_log (files : list (string * string)) (w : world store) :
  ∃ new : list (request * reply),
    trace (upload_all urlopen read_file cfg files w).2 = trace w ++ new
    ∧ upload_log cfg read_file files new (upload_all urlopen read_file cfg files w).1.
Proof.
  revert w. induction files as [|[full rel] rest IH]; intros w.
  { exists []. split; [by rewrite app_nil_r | constructor]. }
  cbn [upload_all]. rewrite bind_unfold.
  destruct (read_file full) as [content|] eqn:Hread.
  2:{ rewrite (upload_file_unreadable urlopen read_file cfg _ _ _ Hread).
      exists []. split; [by rewrite app_nil_r | by constructor]. }
  destruct (quote rel) as [q|] eqn:Hq.
  2:{ rewrite (upload_file_unquotable urlopen read_file cfg _ _ _ _ Hread Hq).
      exists []. split; [by rewrite app_nil_r | by econstructor]. }
  assert (Hq' : quote rel = Some (quote_from_bytes rel)).
  { by destruct (quote_some _ _ Hq) as [<- _]. }
  pose proof (upload_file_new_calls urlopen read_file cfg _ rel _ _ w Hread Hq) as Htr.
  cbv zeta in Htr.
  rewrite (upload_file_run urlopen read_file cfg _ _ _ _ _ Hread Hq) in Htr |- *.
  set (get_rq := get_contents_request cfg rel) in *.
  set (answer := reply_of urlopen w get_rq) in *.
  set (put_rq := put_contents_request cfg content rel (sha_of_reply answer)) in *.
  destruct (reply_of urlopen (record_call urlopen w get_rq) put_rq) as [body|[e|msg]].
  - destruct (IH (record_print (record_call urlopen (record_call urlopen w get_rq) put_rq)
                    [uploaded_line rel])) as (new & Hnew & Hlog).
    eexists. split.
    + rewrite Hnew. cbn [snd] in Htr. rewrite Htr. rewrite <- app_assoc. reflexivity.
    + by econstructor.
  - pose proof (upload_rejected cfg read_file full rel rest content answer e Hread Hq')
      as Hlog.
    fold get_rq answer put_rq in Hlog.
    destruct (rejected_outcome e) as [[]|e'|status] eqn:Hout.
    + unfold rejected_outcome in Hout. by destruct (PyStr.utf8_valid (err_body e)).
    + eexists. split; [exact Htr | exact Hlog].
    + eexists. split; [exact Htr | exact Hlog].
  - eexists. split; [exact Htr |]. by constructor.
Qed.

Lemma main_run (w : world store) :
  main urlopen read_file sep cwd source_tree cfg w =
    match ensure_branch urlopen cfg w with
    | (Return _, w1) =>
        match discover_files sep cwd cfg source_tree with
        | Some files => upload_all urlopen read_file cfg files w1
        | None => (Raise (EException "ValueError"), w1)
        end
    | (Raise e, w1) => (Raise e, w1)
    | (SysExit status, w1) => (SysExit status, w1)
    end.
Proof.
  unfold main. rewrite bind_unfold.
  destruct (ensure_branch urlopen cfg w) as [[[]|e|status] w1]; try reflexivity.
  rewrite bind_unfold.
  destruct (discover_files sep cwd cfg source_tree); reflexivity.
Qed.

Lemma ensure_log_no_put (new : list (request * reply)) (out : outcome unit) :
  ensure_log cfg new out → calls_with PUT new = [].
Proof. intros H. destruct H; reflexivity. Qed.

Lemma calls_with_put_pair (rel : string) (content : list byte) (sha : json)
    (answer rp : reply) (calls : list (request * reply)) :
  calls_with PUT ((get_contents_request cfg rel, answer)
                  :: (put_contents_request cfg content rel sha, rp) :: calls)
  = (put_contents_request cfg content rel sha, rp) :: calls_with PUT calls.
Proof. reflexivity. Qed.

(** What the log of the upload loop says about its writes: the [j]-th
    write is the PUT for the [j]-th file, and a write answered by an HTTP
    error is the last call of the loop, after successful writes only. *)
Lemma upload_log_writes (files : list (string * string))
    (calls : list (request * reply)) (out : outcome unit) :
  upload_log cfg read_file files calls out →
  (∀ (j : nat) (rq : request) (rp : reply),
     calls_with PUT calls !! j = Some (rq, rp) →
     ∃ full rel content sha,
       files !! j = Some (full, rel) ∧ read_file full = Some content
       ∧ quote rel = Some (quote_from_bytes rel)
       ∧ rq = put_contents_request cfg content rel sha)
  ∧ (∀ (k : nat) (rq : request) (e : HTTPError),
       calls_with PUT calls !! k = Some (rq, inr (EHTTPError e)) →
       length (calls_with PUT calls) = S k
       ∧ out = rejected_outcome e
       ∧ last calls = Some (rq, inr (EHTTPError e))
       ∧ ∀ j : nat, (j < k)%nat →
           ∃ rq' body, calls_with PUT calls !! j = Some (rq', inl body)).
Proof.
  induction 1 as [| full rel rest Hread
                  | full rel rest content Hread Hq
                  | full rel rest content answer body calls out Hread Hq Hlog [IH1 IH2]
                  | full rel rest content answer e Hread Hq
                  | full rel rest content answer msg Hread Hq].
  - split; intros; discriminate.
  - split; intros; discriminate.
  - split; intros; discriminate.
  - rewrite calls_with_put_pair. split.
    + intros [|j] rq rp Hj; cbn in Hj.
      * injection Hj as <- <-. by exists full, rel, content, (sha_of_reply answer).
      * destruct (IH1 j rq rp Hj) as (f & r & c & s & ? & ? & ? & ?).
        by exists f, r, c, s.
    + intros [|k] rq e Hk; cbn in Hk; [discriminate |].
      destruct (IH2 k rq e Hk) as (Hlen & Hout & Hlast & Hbefore).
      split; [cbn; by rewrite Hlen |]. split; [done |]. split.
      * destruct calls as [|c calls']; [discriminate Hlast | exact Hlast].
      * intros [|j] Hj; [by eexists _, _ |].
        apply Hbefore. lia.
  - rewrite calls_with_put_pair. split.
    + intros [|j] rq rp Hj; cbn in Hj; [| discriminate].
      injection Hj as <- <-. by exists full, rel, content, (sha_of_reply answer).
    + intros [|k] rq e' Hk; cbn in Hk; [| discriminate].
      injection Hk as <- <-.
      split; [reflexivity |]. split; [reflexivity |]. split; [reflexivity |].
      intros j Hj. lia.
  - rewrite calls_with_put_pair. split.
    + intros [|j] rq rp Hj; cbn in Hj; [| discriminate].
      injection Hj as <- <-. by exists full, rel, content, (sha_of_reply answer).
    + intros [|k] rq e' Hk; cbn in Hk; discriminate.
Qed.

(** The calls of [main]: those of [ensure_branch], then those of the
    upload loop when the branch is there and the files were listed. *)
Lemma main_log (w : world store) :
  let run := main urlopen read_file sep cwd source_tree cfg w in
  ∃ eb : list (request * reply),
    (new_calls w run.2 = eb ∧ ensure_log cfg eb run.1 ∧ run.1 ≠ Return tt)
    ∨ (new_calls w run.2 = eb ∧ ensure_log cfg eb (Return tt)
       ∧ discover_files sep cwd cfg source_tree = None
       ∧ run.1 = Raise (EException "ValueError"))
    ∨ (∃ files up,
         new_calls w run.2 = eb ++ up ∧ ensure_log cfg eb (Return tt)
         ∧ discover_files sep cwd cfg source_tree = Some files
         ∧ upload_log cfg read_file files up run.1).
Proof.
  cbv zeta. rewrite main_run.
  destruct (ensure_branch_log w) as (eb & Htr & Hlog).
  destruct (ensure_branch urlopen cfg w) as [[[]|e|status] w1]; cbn [fst snd] in *.
  - destruct (discover_files sep cwd cfg source_tree) as [files|] eqn:Hfiles.
    + destruct (upload_all_log files w1) as (up & Htr' & Hlog').
      exists eb. right. right. exists files, up.
      split; [| done]. apply new_calls_app. rewrite Htr', Htr. by rewrite app_assoc.
    + exists eb. right. left. cbn. split; [by apply new_calls_app | done].
  - exists eb. left. cbn. split; [by apply new_calls_app | done].
  - exists eb. left. cbn. split; [by apply new_calls_app | done].
Qed.

End RunLogs.

(** ** Fail fast *)

(** C2. In every run of [main], if the write with index [k] (counting from
    0, so the write of the [k+1]-th file) is answered by an HTTP error,
    that is a non-2xx response, then the files were discovered, exactly
    [k+1] writes were attempted, the [j]-th write is the PUT for the [j]-th
    discovered file, all earlier writes succeeded, the failing write is the
    last remote call of the run, so that nothing is attempted for any later
    file, and the process ends with a status that is not 0: status 5 when
    the body of the response can be decoded, and the status of the
    uncaught [UnicodeDecodeError] when it cannot. *)
Theorem main_fail_fast :
  ∀ (store : Type) (urlopen : store → request → reply * store)
    (read_file : string → option (list byte)) (sep : ascii) (cwd : string)
    (source_tree : tree) (cfg : config) (w : world store)
    (k : nat) (rq : request) (e : HTTPError),
    let run := main urlopen read_file sep cwd source_tree cfg w in
    let calls := new_calls w run.2 in
    let writes := calls_with PUT calls in
    writes !! k = Some (rq, inr (EHTTPError e)) →
    ∃ files : list (string * string),
      discover_files sep cwd cfg source_tree = Some files
      ∧ length writes = S k
      ∧ (∀ (j : nat) (rq' : request) (rp' : reply),
           writes !! j = Some (rq', rp') →
           ∃ full rel q, files !! j = Some (full, rel)
                         ∧ quote rel = Some q
                         ∧ meth rq' = PUT
                         ∧ url rq' = API_BASE +:+ contents_path cfg q)
      ∧ (∀ j : nat, (j < k)%nat → ∃ rq' body, writes !! j = Some (rq', inl body))
      ∧ last calls = Some (rq, inr (EHTTPError e))
      ∧ run.1 = (if PyStr.utf8_valid (err_body e) then SysExit 5
                 else Raise (EException "UnicodeDecodeError"))
      ∧ exit_status run.1 ≠ 0.
Proof.
  intros store urlopen read_file sep cwd source_tree cfg w k rq e run calls writes Hk.
  destruct (main_log urlopen read_file sep cwd source_tree cfg w)
    as (eb & [(Hcalls & Hlog & _) | [(Hcalls & Hlog & _) | (files & up & Hcalls & Hlog & Hfiles & Hup)]]).
  - exfalso. subst writes calls run. rewrite Hcalls in Hk.
    by rewrite (ensure_log_no_put _ _ _ Hlog) in Hk.
  - exfalso. subst writes calls run. rewrite Hcalls in Hk.
    by rewrite (ensure_log_no_put _ _ _ Hlog) in Hk.
  - assert (Hwrites : writes = calls_with PUT up).
    { subst writes calls run. rewrite Hcalls. unfold calls_with.
      rewrite filter_app. fold (calls_with PUT eb).
      by rewrite (ensure_log_no_put _ _ _ Hlog). }
    destruct (upload_log_writes read_file cfg _ _ _ Hup) as [Hfile Hrej].
    rewrite Hwrites in *.
    destruct (Hrej k rq e Hk) as (Hlen & Hout & Hlast & Hbefore).
    exists files. split; [done |]. split; [done |]. split; [| split; [done |]].
    + intros j rq' rp' Hj.
      destruct (Hfile j rq' rp' Hj) as (full & rel & content & sha & ? & ? & ? & ->).
      by exists full, rel, (quote_from_bytes rel).
    + split; [| split].
      * subst calls run. rewrite Hcalls.
        destruct up as [|c up']; [discriminate Hlast |].
        rewrite last_app. by rewrite Hlast.
      * exact Hout.
      * fold run in Hout. rewrite Hout. unfold rejected_outcome.
        destruct (PyStr.utf8_valid (err_body e)); cbn; lia.
Qed.

Lemma main_fail_fast_witness :
  let run := main Scripted.urlopen (Scripted.read_from three_files_content)
               "/" "/home/user" three_files example_config
               (init_world second_write_rejected []) in
  let calls := new_calls (init_world second_write_rejected []) run.2 in
  let writes := calls_with PUT calls in
  ∃ files : list (string * string),
    discover_files "/" "/home/user" example_config three_files = Some files
    ∧ length writes = 2%nat
    ∧ (∀ (j : nat) (rq' : request) (rp' : reply),
         writes !! j = Some (rq', rp') →
         ∃ full rel q, files !! j = Some (full, rel)
                       ∧ quote rel = Some q
                       ∧ meth rq' = PUT
                       ∧ url rq' = API_BASE +:+ contents_path example_config q)
    ∧ (∀ j : nat, (j < 1)%nat → ∃ rq' body, writes !! j = Some (rq', inl body))
    ∧ last calls
      = Some (put_contents_request example_config hello "b.txt" JNull,
              inr (EHTTPError rejected))
    ∧ run.1 = SysExit 5
    ∧ exit_status run.1 ≠ 0.
Proof.
  exact (main_fail_fast Scripted.store Scripted.urlopen
           (Scripted.read_from three_files_content) "/" "/home/user" three_files
           example_config (init_world second_write_rejected []) 1%nat
           (put_contents_request example_config hello "b.txt" JNull) rejected
           eq_refl).
Defined.

(** ** Discovery: what the walk leaves out *)

(** X1. On a POSIX host, in every well-formed directory tree, for every
    sub-directory reached by a path of directory names one of which is
    [.git], at any depth, the entries of that sub-directory form a segment
    of the walk on which the loop appends no record, whatever was collected
    before; [discover_files] returns, and what it returns is the result of
    the loop on the walk without that segment. *)
Theorem git_subtree_excluded :
  ∀ (cwd : string) (cfg : config) (t sub : tree) (p : list string),
    PyStr.truthy (SOURCE_DIR cfg) = true →
    wf_tree slash t = true →
    subtree_at t p = Some sub →
    ".git" ∈ p →
    ∃ before after : list (string * list string * list string),
      os_walk slash (SOURCE_DIR cfg) t
      = before ++ os_walk slash (path_join_all slash (SOURCE_DIR cfg) p) sub ++ after
      ∧ (∀ files : list (string * string),
           for_walk slash cwd cfg
             (os_walk slash (path_join_all slash (SOURCE_DIR cfg) p) sub) files
           = Some files)
      ∧ discover_files slash cwd cfg t = for_walk slash cwd cfg (before ++ after) []
      ∧ is_Some (discover_files slash cwd cfg t).
Proof.
  intros cwd cfg t sub p Htop Hwf Hsub Hgit.
  destruct (os_walk_subtree slash t sub p (SOURCE_DIR cfg) Hsub) as (before & after & Hwalk).
  destruct (subtree_at_wf slash t sub p Hwf Hsub) as [Hp Hsubwf].
  assert (Hgitwf : wf_name slash ".git" = true).
  { rewrite Forall_forall in Hp. by apply Hp. }
  assert (Hseg : ∀ files,
             for_walk slash cwd cfg
               (os_walk slash (path_join_all slash (SOURCE_DIR cfg) p) sub) files
             = Some files).
  { intros files. apply for_walk_skipped. intros root dirs fns Hin. left.
    apply component_in_split; [| by apply wf_name_no_sep].
    apply (os_walk_roots slash (has_component slash ".git") sub) with
      (top := path_join_all slash (SOURCE_DIR cfg) p) (dirs := dirs) (fns := fns);
      [| done | by apply path_join_all_component | done].
    intros a n Ha Hn. apply join_keeps_component;
      [done | by apply wf_name_nonempty in Hgitwf | by apply wf_name_no_sep
       | by apply wf_name_relative]. }
  exists before, after. split; [done |]. split; [done |]. split.
  - exact (discover_without_segment slash cwd cfg t before _ after Hwalk Hseg).
  - rewrite discover_files_eq by done. by eexists.
Qed.

Lemma git_subtree_excluded_witness :
  ∃ before after : list (string * list string * list string),
    os_walk "/" "." nested_git_tree
    = before ++ os_walk "/" "./src/.git" (Dir ["HEAD"] [("objects", Dir ["x"] [])]) ++ after
    ∧ (∀ files : list (string * string),
         for_walk "/" "/home/user" example_config
           (os_walk "/" "./src/.git" (Dir ["HEAD"] [("objects", Dir ["x"] [])])) files
         = Some files)
    ∧ discover_files "/" "/home/user" example_config nested_git_tree
      = for_walk "/" "/home/user" example_config (before ++ after) []
    ∧ is_Some (discover_files "/" "/home/user" example_config nested_git_tree).
Proof.
  apply (git_subtree_excluded "/home/user" example_config nested_git_tree
           (Dir ["HEAD"] [("objects", Dir ["x"] [])]) ["src"; ".git"]).
  - reflexivity.
  - reflexivity.
  - reflexivity.
  - apply elem_of_cons. right. apply elem_of_cons. by left.
Defined.

(** What [discover_files] returns on the example tree: nothing from
    [src/.git], at either depth. *)
Example discover_nested_git_tree :
  discover_files "/" "/home/user" example_config nested_git_tree
  = Some [("./a.txt", "a.txt"); ("./src/m.py", "src/m.py");
          ("./doc/index.md", "doc/index.md")].
Proof. vm_compute. reflexivity. Qed.

(** X2. In every well-formed directory tree, for every sub-directory whose
    path, as the walk builds it, starts with [./.git] or contains [/.git],
    whatever the name of the directory is ([.github] for one), the entries
    of that sub-directory form a segment of the walk on which the loop
    appends no record, and [discover_files] returns the result of the loop
    on the walk without that segment. *)
Theorem git_substring_subtree_excluded :
  ∀ (sep : ascii) (cwd : string) (cfg : config) (t sub : tree) (p : list string),
    PyStr.truthy (SOURCE_DIR cfg) = true →
    wf_tree sep t = true →
    subtree_at t p = Some sub →
    PyStr.startswith "./.git" (path_join_all sep (SOURCE_DIR cfg) p) = true
    ∨ PyStr.contains "/.git" (path_join_all sep (SOURCE_DIR cfg) p) = true →
    ∃ before after : list (string * list string * list string),
      os_walk sep (SOURCE_DIR cfg) t
      = before ++ os_walk sep (path_join_all sep (SOURCE_DIR cfg) p) sub ++ after
      ∧ (∀ files : list (string * string),
           for_walk sep cwd cfg
             (os_walk sep (path_join_all sep (SOURCE_DIR cfg) p) sub) files
           = Some files)
      ∧ discover_files sep cwd cfg t = for_walk sep cwd cfg (before ++ after) []
      ∧ is_Some (discover_files sep cwd cfg t).
Proof.
  intros sep cwd cfg t sub p Htop Hwf Hsub Hroot.
  destruct (os_walk_subtree sep t sub p (SOURCE_DIR cfg) Hsub) as (before & after & Hwalk).
  destruct (subtree_at_wf sep t sub p Hwf Hsub) as [Hp Hsubwf].
  assert (Hseg : ∀ files,
             for_walk sep cwd cfg
               (os_walk sep (path_join_all sep (SOURCE_DIR cfg) p) sub) files
             = Some files).
  { intros files. apply for_walk_skipped. intros root dirs fns Hin. right.
    apply (os_walk_roots sep (λ r, skip_substring r = true) sub) with
      (top := path_join_all sep (SOURCE_DIR cfg) p) (dirs := dirs) (fns := fns);
      [| done | | done].
    - intros a n Ha Hn.
      destruct (path_join_prefix sep a n (wf_name_relative sep n Hn)) as [x ->].
      unfold skip_substring in *. apply orb_true_iff in Ha as [Ha | Ha].
      + by rewrite (startswith_app_r _ _ x Ha).
      + rewrite (contains_app_r _ _ x Ha). apply orb_true_r.
    - unfold skip_substring. apply orb_true_iff. exact Hroot. }
  exists before, after. split; [done |]. split; [done |]. split.
  - exact (discover_without_segment sep cwd cfg t before _ after Hwalk Hseg).
  - rewrite discover_files_eq by done. by eexists.
Qed.

Lemma git_substring_subtree_excluded_witness :
  ∃ before after : list (string * list string * list string),
    os_walk "/" "." github_tree
    = before
      ++ os_walk "/" "./.github" (Dir ["ci.yml"] [("workflows", Dir ["build.yml"] [])])
      ++ after
    ∧ (∀ files : list (string * string),
         for_walk "/" "/home/user" example_config
           (os_walk "/" "./.github"
              (Dir ["ci.yml"] [("workflows", Dir ["build.yml"] [])])) files
         = Some files)
    ∧ discover_files "/" "/home/user" example_config github_tree
      = for_walk "/" "/home/user" example_config (before ++ after) []
    ∧ is_Some (discover_files "/" "/home/user" example_config github_tree).
Proof.
  apply (git_substring_subtree_excluded "/" "/home/user" example_config github_tree
           (Dir ["ci.yml"] [("workflows", Dir ["build.yml"] [])]) [".github"]).
  - reflexivity.
  - reflexivity.
  - reflexivity.
  - left. reflexivity.
Defined.

(** On a POSIX host nothing under [.github] is listed. *)
Example discover_github_tree :
  discover_files "/" "/home/user" example_config github_tree
  = Some [("./README.md", "README.md")].
Proof. vm_compute. reflexivity. Qed.

(** ** Discovery: archives *)

Lemma entry_records_elem (sep : ascii) (cwd : string) (cfg : config)
    (root : string) (dirs fns : list string) (rec : string * string) :
  rec ∈ entry_records sep cwd cfg (root, dirs, fns)
  ↔ skip_component sep root = false ∧ skip_substring root = false
    ∧ ∃ fn, fn ∈ fns ∧ PyStr.endswith ".zip" fn = false
            ∧ rec = file_record sep cwd cfg root fn.
Proof.
  unfold entry_records. split.
  - destruct (skip_component sep root); [by intros ?%elem_of_nil |].
    destruct (skip_substring root); [by intros ?%elem_of_nil |]. cbn [orb].
    intros Hin. apply list_elem_of_In, in_map_iff in Hin as (fn & <- & Hfn).
    apply filter_In in Hfn as [Hfn Hzip]. apply negb_true_iff in Hzip.
    split; [done |]. split; [done |]. exists fn. by rewrite list_elem_of_In.
  - intros (-> & -> & fn & Hfn & Hzip & ->). cbn [orb].
    apply list_elem_of_In, in_map, filter_In. rewrite Hzip.
    by rewrite <- list_elem_of_In.
Qed.

(** X3. On a POSIX host, when [SOURCE_DIR] is set, [discover_files] returns
    a list in which no record has a local path ending in [.zip]: every
    record comes from a file name of the walk that does not end in [.zip];
    and every file name of the walk that does not end in [.zip], in a
    directory that the two [.git] guards do not skip, has its record in
    the list. *)
Theorem zip_files_excluded :
  ∀ (cwd : string) (cfg : config) (t : tree),
    PyStr.truthy (SOURCE_DIR cfg) = true →
    ∃ files : list (string * string),
      discover_files slash cwd cfg t = Some files
      ∧ (∀ full rel : string,
           (full, rel) ∈ files →
           PyStr.endswith ".zip" full = false
           ∧ ∃ root dirs fns fn,
               (root, dirs, fns) ∈ os_walk slash (SOURCE_DIR cfg) t
               ∧ fn ∈ fns
               ∧ PyStr.endswith ".zip" fn = false
               ∧ full = path_join slash root fn)
      ∧ (∀ (root : string) (dirs fns : list string) (fn : string),
           (root, dirs, fns) ∈ os_walk slash (SOURCE_DIR cfg) t →
           fn ∈ fns →
           skip_component slash root = false →
           skip_substring root = false →
           PyStr.endswith ".zip" fn = false →
           ∃ rel : string, (path_join slash root fn, rel) ∈ files).
Proof.
  intros cwd cfg t Htop.
  eexists. split; [by apply discover_files_eq |]. split.
  - intros full rel Hin.
    apply list_elem_of_In, in_flat_map in Hin as ([[root dirs] fns] & Hentry & Hin).
    apply list_elem_of_In, entry_records_elem in Hin as (_ & _ & fn & Hfn & Hzip & Heq).
    injection Heq as -> _. split.
    + by apply path_join_endswith.
    + exists root, dirs, fns, fn. by rewrite list_elem_of_In.
  - intros root dirs fns fn Hentry Hfn Hskip1 Hskip2 Hzip.
    exists (file_record slash cwd cfg root fn).2.
    apply list_elem_of_In, in_flat_map. exists (root, dirs, fns).
    split; [by apply list_elem_of_In |].
    apply list_elem_of_In, entry_records_elem.
    split; [done |]. split; [done |]. by exists fn.
Qed.

Lemma zip_files_excluded_witness :
  ∃ files : list (string * string),
    discover_files "/" "/home/user" example_config archive_tree = Some files
    ∧ (∀ full rel : string,
         (full, rel) ∈ files →
         PyStr.endswith ".zip" full = false
         ∧ ∃ root dirs fns fn,
             (root, dirs, fns) ∈ os_walk "/" "." archive_tree
             ∧ fn ∈ fns
             ∧ PyStr.endswith ".zip" fn = false
             ∧ full = path_join "/" root fn)
    ∧ (∀ (root : string) (dirs fns : list string) (fn : string),
         (root, dirs, fns) ∈ os_walk "/" "." archive_tree →
         fn ∈ fns →
         skip_component "/" root = false →
         skip_substring root = false →
         PyStr.endswith ".zip" fn = false →
         ∃ rel : string, (path_join "/" root fn, rel) ∈ files).
Proof.
  apply (zip_files_excluded "/home/user" example_config archive_tree).
  reflexivity.
Defined.

(** [out.zip] at the root is left out, [out.zip.bak] is listed. *)
Example discover_archive_tree :
  discover_files "/" "/home/user" example_config archive_tree
  = Some [("./out.zip.bak", "out.zip.bak")].
Proof. vm_compute. reflexivity. Qed.

(** ** Discovery: the relative paths *)

Section PositionFacts.
Variable sep : ascii.

(** Every entry of the walk is the directory at some position of the
    tree, under the path made of the names that lead to it. *)
Lemma os_walk_positions (t : tree) :
  ∀ (top root : string) (dirs fns : list string),
    wf_tree sep t = true →
    (root, dirs, fns) ∈ os_walk sep top t →
    ∃ (p : list string) (subs : list (string * tree)),
      dir_at t p (Dir fns subs)
      ∧ root = path_join_all sep top p
      ∧ Forall (λ n, wf_name sep n = true) p
      ∧ Forall (λ n, wf_name sep n = true) fns.
Proof.
  induction t as [fns subs IH] using tree_ind_nested.
  intros top root dirs fns' Hwf Hin. cbn [os_walk] in Hin.
  cbn [wf_tree] in Hwf. apply andb_true_iff in Hwf as [Hfns Hsubs].
  apply elem_of_cons in Hin as [Heq | Hin].
  - injection Heq as -> _ ->. exists [], subs.
    split; [constructor |]. split; [done |]. split; [constructor |].
    apply Forall_forall. intros n Hn. rewrite forallb_forall in Hfns.
    apply Hfns. by apply list_elem_of_In.
  - apply list_elem_of_In, in_flat_map in Hin as ([n sub] & Hsub & Hin).
    rewrite forallb_forall in Hsubs. specialize (Hsubs _ Hsub).
    cbn in Hsubs. apply andb_true_iff in Hsubs as [Hn Hsubwf].
    rewrite Forall_forall in IH. apply list_elem_of_In in Hsub, Hin.
    destruct (IH _ Hsub (path_join sep top n) root dirs fns' Hsubwf Hin)
      as (p & subs' & Hat & Hroot & Hp & Hf).
    exists (n :: p), subs'. split; [by econstructor |].
    split; [done |]. split; [by constructor | done].
Qed.

Lemma replace_app (a b : ascii) (x y : string) :
  PyStr.replace a b (x +:+ y) = PyStr.replace a b x +:+ PyStr.replace a b y.
Proof.
  induction x as [|c x IH]; [done |].
  rewrite str_app_cons. cbn [PyStr.replace]. by rewrite IH, str_app_cons.
Qed.

Lemma replace_join (a b : ascii) (s : string) (l : list string) :
  PyStr.replace a b (PyStr.join s l)
  = PyStr.join (PyStr.replace a b s) (map (PyStr.replace a b) l).
Proof.
  induction l as [|x l IH]; [done |].
  destruct l as [|y l]; [done |].
  change (PyStr.join s (x :: y :: l)) with (x +:+ s +:+ PyStr.join s (y :: l)).
  rewrite !replace_app, IH. reflexivity.
Qed.

Lemma replace_no_occurrence (a b : ascii) (s : string) :
  a ≠ b → PyStr.contains (String a EmptyString) (PyStr.replace a b s) = false.
Proof.
  intros Hab. induction s as [|c s IH]; [done |].
  cbn [PyStr.replace PyStr.contains PyStr.startswith]. rewrite IH, orb_false_r.
  destruct (Ascii.eqb_spec c a) as [->|Hne].
  - by destruct (Ascii.eqb_spec a b).
  - by destruct (Ascii.eqb_spec a c).
Qed.

End PositionFacts.

(** X4. On a POSIX host, where the working directory is absolute, with a
    set [SOURCE_DIR] and a well-formed tree, [discover_files] returns,
    and every record it returns is for a file [fn] of the directory
    reached by some names [p]: its local path is [SOURCE_DIR] joined with
    [p] and [fn], and its relative path is [p] and [fn] joined by [/],
    each name with its backslashes turned into [/]. *)
Theorem discovered_relative_paths :
  ∀ (cwd : string) (cfg : config) (t : tree),
    PyStr.startswith "/" cwd = true →
    PyStr.truthy (SOURCE_DIR cfg) = true →
    wf_tree slash t = true →
    ∃ files : list (string * string),
      discover_files slash cwd cfg t = Some files
      ∧ ∀ full rel : string,
          (full, rel) ∈ files →
          ∃ (p fns : list string) (subs : list (string * tree)) (fn : string),
            dir_at t p (Dir fns subs)
            ∧ fn ∈ fns
            ∧ full = path_join_all slash (SOURCE_DIR cfg) (p ++ [fn])
            ∧ rel = PyStr.join "/" (map (PyStr.replace backslash slash) (p ++ [fn])).
Proof.
  intros cwd cfg t Hcwd Htop Hwf.
  eexists. split; [by apply discover_files_eq |].
  intros full rel Hin.
  apply list_elem_of_In, in_flat_map in Hin as ([[root dirs] fns] & Hentry & Hin).
  apply list_elem_of_In, entry_records_elem in Hin as (_ & _ & fn & Hfn & _ & Heq).
  apply list_elem_of_In in Hentry.
  destruct (os_walk_positions slash t _ _ _ _ Hwf Hentry)
    as (p & subs & Hat & -> & Hp & Hfns).
  assert (Hq : Forall (λ n, wf_name slash n = true) (p ++ [fn])).
  { apply Forall_app. split; [done |]. constructor; [| constructor].
    rewrite Forall_forall in Hfns. by apply Hfns. }
  exists p, fns, subs, fn. split; [done |]. split; [done |].
  unfold file_record in Heq. rewrite <- path_join_all_snoc in Heq.
  rewrite (relpath_join_all slash cwd (SOURCE_DIR cfg) (p ++ [fn]) Hcwd Htop Hq) in Heq
    by (by destruct p).
  injection Heq as -> ->. split; [done |]. cbn [default].
  by rewrite replace_join.
Qed.

Lemma discovered_relative_paths_witness :
  ∃ files : list (string * string),
    discover_files "/" "/home/user" (config_in "src") backslash_name_tree
    = Some files
    ∧ ∀ full rel : string,
        (full, rel) ∈ files →
        ∃ (p fns : list string) (subs : list (string * tree)) (fn : string),
          dir_at backslash_name_tree p (Dir fns subs)
          ∧ fn ∈ fns
          ∧ full = path_join_all "/" "src" (p ++ [fn])
          ∧ rel = PyStr.join "/" (map (PyStr.replace backslash slash) (p ++ [fn])).
Proof.
  apply (discovered_relative_paths "/home/user" (config_in "src") backslash_name_tree).
  - reflexivity.
  - reflexivity.
  - reflexivity.
Defined.

(** On a POSIX host, the file named [b], backslash, [c.txt] in the
    directory [a] is listed with the relative path [a/b/c.txt]. *)
Example discover_backslash_name_tree :
  discover_files "/" "/home/user" (config_in "src") backslash_name_tree
  = Some [("src/a/b" +:+ backslash_str +:+ "c.txt", "a/b/c.txt")].
Proof. vm_compute. reflexivity. Qed.

(** With the backslash as separator, the file [c.txt] under [a] and [b]
    is listed with the relative path [a/b/c.txt]. *)
Example discover_abc_tree_backslash :
  discover_files backslash (backslash_str +:+ "home") (config_in ".") abc_tree
  = Some [(PyStr.join backslash_str ["."; "a"; "b"; "c.txt"], "a/b/c.txt")].
Proof. vm_compute. reflexivity. Qed.

(** X5. Whatever the host and the tree, no relative path that
    [discover_files] returns contains a backslash. *)
Theorem discovered_paths_without_backslash :
  ∀ (sep : ascii) (cwd : string) (cfg : config) (t : tree)
    (files : list (string * string)),
    discover_files sep cwd cfg t = Some files →
    ∀ full rel : string,
      (full, rel) ∈ files →
      PyStr.contains backslash_str rel = false.
Proof.
  intros sep cwd cfg t files Hfiles full rel Hin.
  unfold discover_files in Hfiles.
  assert (Hgen : ∀ entries acc out,
             for_walk sep cwd cfg entries acc = Some out →
             Forall (λ r, PyStr.contains backslash_str r.2 = false) acc →
             Forall (λ r, PyStr.contains backslash_str r.2 = false) out).
  { assert (Hfn : ∀ root fns acc out,
               for_filenames sep cwd cfg root fns acc = Some out →
               Forall (λ r, PyStr.contains backslash_str r.2 = false) acc →
               Forall (λ r, PyStr.contains backslash_str r.2 = false) out).
    { intros root fns. induction fns as [|fn fns IH]; intros acc out Hrun Hacc.
      - cbn in Hrun. by injection Hrun as <-.
      - cbn [for_filenames] in Hrun.
        destruct (PyStr.endswith ".zip" fn); [by apply (IH acc) |].
        destruct (relpath sep cwd (path_join sep root fn) (SOURCE_DIR cfg)) as [r|];
          [| discriminate].
        apply (IH _ _ Hrun). apply Forall_app. split; [done |].
        constructor; [| constructor]. cbn [snd].
        by apply replace_no_occurrence. }
    intros entries. induction entries as [|[[root dirs] fns] entries IH];
      intros acc out Hrun Hacc.
    - cbn in Hrun. by injection Hrun as <-.
    - cbn [for_walk] in Hrun.
      destruct (skip_component sep root); [by apply (IH acc) |].
      destruct (skip_substring root); [by apply (IH acc) |].
      destruct (for_filenames sep cwd cfg root fns acc) as [acc'|] eqn:E;
        [| discriminate].
      apply (IH _ _ Hrun). by apply (Hfn root fns acc). }
  specialize (Hgen _ _ _ Hfiles (Forall_nil_2 _)).
  rewrite Forall_forall in Hgen. by apply (Hgen (full, rel)).
Qed.

Lemma discovered_paths_without_backslash_witness :
  discover_files backslash (backslash_str +:+ "home") (config_in ".") abc_tree
  = Some [(PyStr.join backslash_str ["."; "a"; "b"; "c.txt"], "a/b/c.txt")]
  ∧ PyStr.contains backslash_str "a/b/c.txt" = false.
Proof.
  split; [exact discover_abc_tree_backslash |].
  apply (discovered_paths_without_backslash backslash (backslash_str +:+ "home")
           (config_in ".") abc_tree _ discover_abc_tree_backslash
           (PyStr.join backslash_str ["."; "a"; "b"; "c.txt"]) "a/b/c.txt").
  apply elem_of_cons. by left.
Defined.

(** ** [ensure_branch]: which calls it makes *)

(** X6. In every run of [ensure_branch]: when the second call, the query for
    the target branch, is answered by an HTTP error, the base branch was
    resolved by the first call and exactly one POST is made, which asks
    for [refs/heads/BRANCH] at the revision the base query returned, and
    the run returns when that POST succeeds and exits with status 4 when
    it fails; when the second call succeeds no POST is made and the run
    returns; and a run never makes a PUT, nor more than three calls. *)
Theorem ensure_branch_creation_calls :
  ∀ (store : Type) (urlopen : store → request → reply * store) (cfg : config)
    (w : world store),
    let run := ensure_branch urlopen cfg w in
    let calls := new_calls w run.2 in
    (∀ (rq : request) (e : HTTPError),
       calls !! 1%nat = Some (rq, inr (EHTTPError e)) →
       ∃ (r base_sha : json) (rp : reply),
         calls !! 0%nat = Some (get_request cfg (ref_path cfg (BASE_BRANCH cfg)), inl r)
         ∧ base_sha_of r = inl base_sha
         ∧ rq = get_request cfg (ref_path cfg (BRANCH cfg))
         ∧ calls_with POST calls
           = [(create_ref_request cfg (BRANCH cfg) base_sha, rp)]
         ∧ run.1 = match rp with inl _ => Return tt | inr _ => SysExit 4 end)
    ∧ (∀ (rq : request) (r' : json),
         calls !! 1%nat = Some (rq, inl r') →
         calls_with POST calls = [] ∧ run.1 = Return tt)
    ∧ calls_with PUT calls = []
    ∧ (length calls ≤ 3)%nat.
Proof.
  intros store urlopen cfg w. cbv zeta.
  destruct (ensure_branch_log urlopen cfg w) as (new & Htr & Hlog).
  rewrite (new_calls_app _ _ _ Htr).
  destruct (ensure_branch urlopen cfg w) as [out w']. cbn [fst snd] in *.
  split; [| split; [| split]].
  - intros rq e H1.
    destruct Hlog as [e0 | msg | r e0 Hr | r sha r' Hr | r sha msg Hr
                      | r sha body e0 Hr | r sha e0 e' Hr];
      cbn in H1; try discriminate; injection H1 as <- <-.
    + exists r, sha, (inl body). by repeat split.
    + exists r, sha, (inr e'). by repeat split.
  - intros rq r' H1.
    destruct Hlog as [e0 | msg | r e0 Hr | r sha r0 Hr | r sha msg Hr
                      | r sha body e0 Hr | r sha e0 e' Hr];
      cbn in H1; try discriminate. by split.
  - by apply (ensure_log_no_put cfg _ _ Hlog).
  - destruct Hlog; cbn; lia.
Qed.

(** X7. When the reply for the base branch holds no revision under
    [object] and [sha], [ensure_branch] stops on the uncaught [KeyError]
    or [TypeError]: the process ends with status 1 and this query was the
    only remote call. *)
Theorem ensure_branch_malformed_base :
  ∀ (store : Type) (urlopen : store → request → reply * store) (cfg : config)
    (w : world store) (r : json) (e : exn),
    reply_of urlopen (record_print w [ensuring_line cfg])
      (get_request cfg (ref_path cfg (BASE_BRANCH cfg))) = inl r →
    base_sha_of r = inr e →
    let run := ensure_branch urlopen cfg w in
    run.1 = Raise e
    ∧ exit_status run.1 = 1
    ∧ new_calls w run.2
      = [(get_request cfg (ref_path cfg (BASE_BRANCH cfg)), inl r)]
    ∧ (e = EException "KeyError" ∨ e = EException "TypeError").
Proof.
  intros store urlopen cfg w r e Hbase Hsha run. subst run.
  rewrite ensure_branch_run. unfold ensure_branch_result.
  rewrite Hbase, Hsha. cbn [fst snd exit_status].
  split; [done |]. split; [done |]. split.
  - apply new_calls_app. rewrite trace_record_call, trace_record_print.
    by rewrite Hbase.
  - unfold base_sha_of, getitem in Hsha.
    destruct r as [| | | | |m]; try (injection Hsha as <-; by right).
    destruct (m !! "object") as [obj|]; [| injection Hsha as <-; by left].
    destruct obj as [| | | | |m']; try (injection Hsha as <-; by right).
    destruct (m' !! "sha"); [discriminate | injection Hsha as <-; by left].
Qed.

Lemma ensure_branch_malformed_base_witness :
  let run := ensure_branch Scripted.urlopen example_config
               (init_world [inl (JObj ∅)] []) in
  run.1 = Raise (EException "KeyError")
  ∧ exit_status run.1 = 1
  ∧ new_calls (init_world [inl (JObj ∅)] []) run.2
    = [(get_request example_config (ref_path example_config "main"), inl (JObj ∅))]
  ∧ (EException "KeyError" = EException "KeyError"
     ∨ EException "KeyError" = EException "TypeError").
Proof.
  exact (ensure_branch_malformed_base Scripted.store Scripted.urlopen example_config
           (init_world [inl (JObj ∅)] []) (JObj ∅) (EException "KeyError")
           eq_refl eq_refl).
Defined.

(** ** [ensure_branch] twice in a row *)

Section EnsureTwice.
Context {store : Type}.
Variable urlopen : store → request → reply * store.
Variable cfg : config.
Hypothesis get_read_only : ∀ st rq, meth rq = GET → (urlopen st rq).2 = st.

Lemma ensure_branch_created_run (w : world store) (r base_sha body : json)
    (e : HTTPError) :
  (urlopen (remote w) (get_request cfg (ref_path cfg (BASE_BRANCH cfg)))).1 = inl r →
  base_sha_of r = inl base_sha →
  (urlopen (remote w) (get_request cfg (ref_path cfg (BRANCH cfg)))).1
  = inr (EHTTPError e) →
  (urlopen (remote w) (create_ref_request cfg (BRANCH cfg) base_sha)).1 = inl body →
  ensure_branch urlopen cfg w
  = (Return tt,
     World (urlopen (remote w) (create_ref_request cfg (BRANCH cfg) base_sha)).2
       (trace w ++ [(get_request cfg (ref_path cfg (BASE_BRANCH cfg)), inl r);
                    (get_request cfg (ref_path cfg (BRANCH cfg)), inr (EHTTPError e));
                    (create_ref_request cfg (BRANCH cfg) base_sha, inl body)])
       (stdout w ++ [ensuring_line cfg; "Branch created."]) (stdin w)).
Proof.
  intros Hbase Hsha Htarget Hpost. destruct w as [st tr out inp].
  cbn [remote trace stdout stdin] in *.
  rewrite ensure_branch_run. unfold ensure_branch_result.
  unfold reply_of, record_call, record_print. cbn [remote trace stdout stdin].
  rewrite Hbase, Hsha.
  rewrite (get_read_only st (get_request cfg (ref_path cfg (BASE_BRANCH cfg)))) by done.
  rewrite Htarget.
  rewrite (get_read_only st (get_request cfg (ref_path cfg (BRANCH cfg)))) by done.
  rewrite Hpost. by rewrite <- !app_assoc.
Qed.

Lemma ensure_branch_exists_run (w : world store) (r base_sha r' : json) :
  (urlopen (remote w) (get_request cfg (ref_path cfg (BASE_BRANCH cfg)))).1 = inl r →
  base_sha_of r = inl base_sha →
  (urlopen (remote w) (get_request cfg (ref_path cfg (BRANCH cfg)))).1 = inl r' →
  ensure_branch urlopen cfg w
  = (Return tt,
     World (remote w)
       (trace w ++ [(get_request cfg (ref_path cfg (BASE_BRANCH cfg)), inl r);
                    (get_request cfg (ref_path cfg (BRANCH cfg)), inl r')])
       (stdout w ++ [ensuring_line cfg; "Branch already exists."]) (stdin w)).
Proof.
  intros Hbase Hsha Htarget. destruct w as [st tr out inp].
  cbn [remote trace stdout stdin] in *.
  rewrite ensure_branch_run. unfold ensure_branch_result.
  unfold reply_of, record_call, record_print. cbn [remote trace stdout stdin].
  rewrite Hbase, Hsha.
  rewrite (get_read_only st (get_request cfg (ref_path cfg (BASE_BRANCH cfg)))) by done.
  rewrite Htarget.
  rewrite (get_read_only st (get_request cfg (ref_path cfg (BRANCH cfg)))) by done.
  by rewrite <- !app_assoc.
Qed.

End EnsureTwice.

(** X8. Take a remote on which a GET does not change the state, and on which
    a successful creation of the target branch makes the query for that
    branch succeed and leaves the answer to every GET of another URL as it
    was.  From a state where the base branch resolves to a revision, the
    target branch is absent and its creation is accepted, two calls of
    [ensure_branch] in a row both return, the first prints
    [Branch created.], the second [Branch already exists.], and there is
    exactly one POST in the whole trace, among five calls. *)
Theorem ensure_branch_twice :
  ∀ (store : Type) (urlopen : store → request → reply * store) (cfg : config)
    (st0 : store) (lines : list string) (r base_sha body : json) (e : HTTPError),
    (∀ st rq, meth rq = GET → (urlopen st rq).2 = st) →
    (∀ st sha,
       succeeded (urlopen st (create_ref_request cfg (BRANCH cfg) sha)).1 →
       succeeded (urlopen (urlopen st (create_ref_request cfg (BRANCH cfg) sha)).2
                    (get_request cfg (ref_path cfg (BRANCH cfg)))).1
       ∧ ∀ rq, meth rq = GET →
               url rq ≠ API_BASE +:+ ref_path cfg (BRANCH cfg) →
               (urlopen (urlopen st (create_ref_request cfg (BRANCH cfg) sha)).2 rq).1
               = (urlopen st rq).1) →
    (urlopen st0 (get_request cfg (ref_path cfg (BASE_BRANCH cfg)))).1 = inl r →
    base_sha_of r = inl base_sha →
    (urlopen st0 (get_request cfg (ref_path cfg (BRANCH cfg)))).1 = inr (EHTTPError e) →
    (urlopen st0 (create_ref_request cfg (BRANCH cfg) base_sha)).1 = inl body →
    let first := ensure_branch urlopen cfg (init_world st0 lines) in
    let second := ensure_branch urlopen cfg first.2 in
    first.1 = Return tt
    ∧ second.1 = Return tt
    ∧ stdout second.2
      = [ensuring_line cfg; "Branch created."; ensuring_line cfg;
         "Branch already exists."]
    ∧ length (trace second.2) = 5%nat
    ∧ calls_with POST (trace second.2)
      = [(create_ref_request cfg (BRANCH cfg) base_sha, inl body)].
Proof.
  intros store urlopen cfg st0 lines r base_sha body e Hro Hcreate
    Hbase Hsha Htarget Hpost.
  cbv zeta.
  set (rq_base := get_request cfg (ref_path cfg (BASE_BRANCH cfg))) in *.
  set (rq_target := get_request cfg (ref_path cfg (BRANCH cfg))) in *.
  set (rq_create := create_ref_request cfg (BRANCH cfg) base_sha) in *.
  assert (Hne : url rq_base ≠ API_BASE +:+ ref_path cfg (BRANCH cfg)).
  { intros Heq. assert (rq_base = rq_target) as Hrq.
    { subst rq_base rq_target. unfold get_request in *. cbn [url] in Heq.
      by rewrite Heq. }
    rewrite Hrq in Hbase. congruence. }
  set (st1 := (urlopen st0 rq_create).2).
  destruct (Hcreate st0 base_sha) as [Hvisible Hframe].
  { fold rq_create. by rewrite Hpost. }
  fold rq_create rq_target in Hvisible, Hframe. fold st1 in Hvisible, Hframe.
  assert (Hbase1 : (urlopen st1 rq_base).1 = inl r).
  { rewrite Hframe; done. }
  destruct ((urlopen st1 rq_target).1) as [r'|e'] eqn:Htarget1;
    [| by destruct Hvisible].
  rewrite (ensure_branch_created_run urlopen cfg Hro (init_world st0 lines)
             r base_sha body e Hbase Hsha Htarget Hpost).
  cbn [fst snd]. fold rq_base rq_target rq_create st1.
  rewrite (ensure_branch_exists_run urlopen cfg Hro (World st1 _ _ _) r base_sha r'
             Hbase1 Hsha Htarget1).
  cbn [fst snd remote trace stdout stdin init_world app].
  split; [done |]. split; [done |]. split; [done |]. split; [done |].
  reflexivity.
Qed.

Lemma ref_store_get_read_only (st : RefStore.store) (rq : request) :
  meth rq = GET → (RefStore.urlopen st rq).2 = st.
Proof.
  intros Hget. unfold RefStore.urlopen. rewrite Hget.
  by destruct (st !! url rq).
Qed.

Lemma ref_store_creation_visible (st : RefStore.store) (sha : json) :
  succeeded (RefStore.urlopen st
            (create_ref_request example_config (BRANCH example_config) sha)).1 →
  succeeded (RefStore.urlopen
            (RefStore.urlopen st
               (create_ref_request example_config (BRANCH example_config) sha)).2
            (get_request example_config
               (ref_path example_config (BRANCH example_config)))).1
  ∧ ∀ rq, meth rq = GET →
          url rq ≠ API_BASE +:+ ref_path example_config (BRANCH example_config) →
          (RefStore.urlopen
             (RefStore.urlopen st
                (create_ref_request example_config (BRANCH example_config) sha)).2
             rq).1
          = (RefStore.urlopen st rq).1.
Proof.
  set (key := "https://api.github.com/repos/owner/repo/git/ref/heads/feature/webssh-verifier").
  assert (Hpost : RefStore.urlopen st
                    (create_ref_request example_config (BRANCH example_config) sha)
                  = match st !! key with
                    | Some _ => (RefStore.unprocessable, st)
                    | None => (inl (JObj {[ "ref" := JStr "refs/heads/feature/webssh-verifier" ]}),
                               <[key := sha]> st)
                    end).
  { unfold RefStore.urlopen, create_ref_request, create_ref_payload.
    cbn [meth data url]. reflexivity. }
  rewrite Hpost. destruct (st !! key) eqn:Hkey; [by intros [] |]. intros _.
  cbn [fst snd]. split.
  - unfold RefStore.urlopen, get_request. cbn [meth url].
    change (API_BASE +:+ ref_path example_config (BRANCH example_config)) with key.
    by rewrite lookup_insert_eq.
  - intros rq Hget Hurl. unfold RefStore.urlopen. rewrite Hget.
    change (API_BASE +:+ ref_path example_config (BRANCH example_config)) with key in Hurl.
    rewrite lookup_insert_ne by congruence.
    by destruct (st !! url rq).
Qed.

Lemma ensure_branch_twice_witness :
  let first := ensure_branch RefStore.urlopen example_config
                 (init_world RefStore.only_main []) in
  let second := ensure_branch RefStore.urlopen example_config first.2 in
  first.1 = Return tt
  ∧ second.1 = Return tt
  ∧ stdout second.2
    = [ensuring_line example_config; "Branch created.";
       ensuring_line example_config; "Branch already exists."]
  ∧ length (trace second.2) = 5%nat
  ∧ calls_with POST (trace second.2)
    = [(create_ref_request example_config (BRANCH example_config) (JStr "abc123"),
        inl (JObj {[ "ref" := JStr "refs/heads/feature/webssh-verifier" ]}))].
Proof.
  apply (ensure_branch_twice RefStore.store RefStore.urlopen example_config
           RefStore.only_main []
           (JObj {[ "object" := JObj {[ "sha" := JStr "abc123" ]} ]})
           (JStr "abc123")
           (JObj {[ "ref" := JStr "refs/heads/feature/webssh-verifier" ]})
           (MkHTTPError 404 "Not Found" "{}")).
  - exact ref_store_get_read_only.
  - exact ref_store_creation_visible.
  - reflexivity.
  - reflexivity.
  - reflexivity.
  - reflexivity.
Defined.

(** ** The upload loop: success, and files that cannot be read *)

Section UploadLogFacts.
Variable cfg : config.
Variable read_file : string → option (list byte).

Lemma rejected_outcome_not_return (e : HTTPError) :
  rejected_outcome e ≠ Return tt.
Proof. unfold rejected_outcome. by destruct (PyStr.utf8_valid (err_body e)). Qed.

Lemma upload_log_returned (files : list (string * string))
    (calls : list (request * reply)) (out : outcome unit) :
  upload_log cfg read_file files calls out →
  out = Return tt →
  Forall2 (λ f c, ∃ content sha body,
             read_file f.1 = Some content
             ∧ c = (put_contents_request cfg content f.2 sha, inl body))
    files (calls_with PUT calls)
  ∧ ∀ c, c ∈ calls → meth c.1 ≠ GET → succeeded c.2.
Proof.
  induction 1 as [| full rel rest Hread
                  | full rel rest content Hread Hq
                  | full rel rest content answer body calls out Hread Hq Hlog IH
                  | full rel rest content answer e Hread Hq
                  | full rel rest content answer msg Hread Hq]; intros Hout;
    try discriminate.
  - split; [constructor |]. by intros c ?%elem_of_nil.
  - destruct (IH Hout) as [IH1 IH2]. rewrite calls_with_put_pair. split.
    + constructor; [| done]. by exists content, (sha_of_reply answer), body.
    + intros c Hc Hm. apply elem_of_cons in Hc as [-> | Hc]; [done |].
      apply elem_of_cons in Hc as [-> | Hc]; [done |]. by apply IH2.
  - by destruct (rejected_outcome_not_return e).
Qed.

Lemma upload_log_unreadable (files : list (string * string))
    (calls : list (request * reply)) (out : outcome unit) :
  upload_log cfg read_file files calls out →
  ∀ (j : nat) (full rel : string),
    files !! j = Some (full, rel) →
    read_file full = None →
    out ≠ Return tt ∧ (length calls ≤ 2 * j)%nat.
Proof.
  induction 1 as [| full rel rest Hread
                  | full rel rest content Hread Hq
                  | full rel rest content answer body calls out Hread Hq Hlog IH
                  | full rel rest content answer e Hread Hq
                  | full rel rest content answer msg Hread Hq];
    intros j f r Hj Hnone.
  - discriminate.
  - split; [done |]. cbn. lia.
  - split; [done |]. cbn. lia.
  - destruct j as [|j]; cbn in Hj.
    + injection Hj as <- <-. congruence.
    + destruct (IH j f r Hj Hnone) as [Hout Hlen]. split; [done |]. cbn. lia.
  - destruct j as [|j]; cbn in Hj.
    + injection Hj as <- <-. congruence.
    + split; [apply rejected_outcome_not_return |]. cbn. lia.
  - destruct j as [|j]; cbn in Hj.
    + injection Hj as <- <-. congruence.
    + split; [done |]. cbn. lia.
Qed.

Lemma ensure_log_returned (calls : list (request * reply)) :
  ensure_log cfg calls (Return tt) →
  ∀ c, c ∈ calls → meth c.1 ≠ GET → succeeded c.2.
Proof.
  intros Hlog c Hc Hm. inversion Hlog; subst;
    repeat (apply elem_of_cons in Hc as [-> | Hc]; [by cbn in * |]);
    by apply elem_of_nil in Hc.
Qed.

End UploadLogFacts.

(** X9. When [main] returns, so that the process ends with status 0, the
    files were listed, there is exactly one PUT per listed file, in the
    order of the list, each for the relative path and the content read from
    the local path of its file and each answered by a 2xx response, and
    every call of the run that is not a GET succeeded. *)
Theorem main_returns_after_every_upload :
  ∀ (store : Type) (urlopen : store → request → reply * store)
    (read_file : string → option (list byte)) (sep : ascii) (cwd : string)
    (source_tree : tree) (cfg : config) (w : world store),
    let run := main urlopen read_file sep cwd source_tree cfg w in
    run.1 = Return tt →
    ∃ files : list (string * string),
      discover_files sep cwd cfg source_tree = Some files
      ∧ Forall2 (λ f c, ∃ content sha body,
                   read_file f.1 = Some content
                   ∧ c = (put_contents_request cfg content f.2 sha, inl body))
          files (calls_with PUT (new_calls w run.2))
      ∧ ∀ c, c ∈ new_calls w run.2 → meth c.1 ≠ GET → succeeded c.2.
Proof.
  intros store urlopen read_file sep cwd source_tree cfg w run Hret.
  destruct (main_log urlopen read_file sep cwd source_tree cfg w)
    as (eb & [(_ & _ & Hne) | [(_ & _ & _ & Hraise)
              | (files & up & Hcalls & Hlog & Hfiles & Hup)]]).
  - by fold run in Hne.
  - fold run in Hraise. congruence.
  - fold run in Hcalls, Hup. rewrite Hcalls.
    destruct (upload_log_returned cfg read_file _ _ _ Hup Hret) as [Hall Hok].
    exists files. split; [done |]. split.
    + unfold calls_with. rewrite filter_app. fold (calls_with PUT eb) (calls_with PUT up).
      by rewrite (ensure_log_no_put _ _ _ Hlog).
    + intros c Hc Hm. apply elem_of_app in Hc as [Hc | Hc].
      * by apply (ensure_log_returned cfg eb Hlog).
      * by apply Hok.
Qed.

Lemma main_returns_after_every_upload_witness :
  let run := main Scripted.urlopen (Scripted.read_from three_files_content)
               "/" "/home/user" three_files example_config
               (init_world all_accepted []) in
  ∃ files : list (string * string),
    discover_files "/" "/home/user" example_config three_files = Some files
    ∧ Forall2 (λ f c, ∃ content sha body,
                 Scripted.read_from three_files_content f.1 = Some content
                 ∧ c = (put_contents_request example_config content f.2 sha, inl body))
        files (calls_with PUT (new_calls (init_world all_accepted []) run.2))
    ∧ ∀ c, c ∈ new_calls (init_world all_accepted []) run.2 →
           meth c.1 ≠ GET → succeeded c.2.
Proof.
  exact (main_returns_after_every_upload Scripted.store Scripted.urlopen
           (Scripted.read_from three_files_content) "/" "/home/user" three_files
           example_config (init_world all_accepted []) eq_refl).
Defined.

(** X10. When a file of the list cannot be read, the upload loop does not
    return, and it makes no remote call for that file or for any file after
    it: with the file at index [j], at most [2 * j] calls are made. *)
Theorem upload_stops_at_unreadable_file :
  ∀ (store : Type) (urlopen : store → request → reply * store)
    (read_file : string → option (list byte)) (cfg : config)
    (files : list (string * string)) (w : world store)
    (j : nat) (full rel : string),
    files !! j = Some (full, rel) →
    read_file full = None →
    let run := upload_all urlopen read_file cfg files w in
    run.1 ≠ Return tt
    ∧ (length (new_calls w run.2) ≤ 2 * j)%nat.
Proof.
  intros store urlopen read_file cfg files w j full rel Hj Hnone run.
  destruct (upload_all_log urlopen read_file cfg files w) as (new & Htr & Hlog).
  fold run in Htr, Hlog. rewrite (new_calls_app _ _ _ Htr).
  by apply (upload_log_unreadable cfg read_file files new run.1 Hlog j full rel).
Qed.

Lemma upload_stops_at_unreadable_file_witness :
  let run := upload_all Scripted.urlopen (Scripted.read_from second_file_missing)
               example_config three_records
               (init_world [not_found; inl JNull; not_found; inl JNull] []) in
  run.1 ≠ Return tt
  ∧ (length (new_calls (init_world [not_found; inl JNull; not_found; inl JNull] [])
               run.2) ≤ 2 * 1)%nat.
Proof.
  exact (upload_stops_at_unreadable_file Scripted.store Scripted.urlopen
           (Scripted.read_from second_file_missing) example_config three_records
           (init_world [not_found; inl JNull; not_found; inl JNull] [])
           1%nat "./b.txt" "b.txt" eq_refl eq_refl).
Defined.

(** ** [upload_file]: the token and the payload *)

(** X11. For a readable file whose relative path can be percent-encoded,
    the write of [upload_file] carries no ["sha"] entry whenever the reply to the existence query is not a dictionary
    (a list, as for a directory, a string, a number, [null]), or is a
    dictionary without ["sha"], or one whose ["sha"] is a value that Python
    takes as false, such as [null] or the empty string. *)
Theorem upload_file_without_usable_token :
  ∀ (store : Type) (urlopen : store → request → reply * store)
    (read_file : string → option (list byte)) (cfg : config)
    (full rel q : string) (content : list byte) (w : world store) (v : json),
    read_file full = Some content →
    quote rel = Some q →
    reply_of urlopen w (get_contents_request cfg rel) = inl v →
    (∀ m : gmap string json,
       v = JObj m →
       m !! "sha" = None ∨ ∃ s, m !! "sha" = Some s ∧ Json.truthy s = false) →
    ∃ (payload : gmap string json) (put_reply : reply),
      new_calls w (upload_file urlopen read_file cfg full rel w).2
      = [(get_contents_request cfg rel, inl v);
         (Request PUT (API_BASE +:+ contents_path cfg q) (json_headers cfg)
            (Some payload), put_reply)]
      ∧ payload !! "sha" = None
      ∧ dom payload = {[ "message"; "content"; "branch" ]}.
Proof.
  intros store urlopen read_file cfg full rel q content w v Hread Hq Hanswer Hfalsy.
  pose proof (upload_file_new_calls urlopen read_file cfg full rel q content w Hread Hq)
    as Htr.
  destruct (quote_some _ _ Hq) as [-> _].
  cbv zeta in Htr. rewrite Hanswer in Htr.
  assert (Hsha : Json.truthy (sha_of_reply (inl v)) = false).
  { destruct v as [| | | | |m]; try reflexivity. cbn.
    destruct (Hfalsy m eq_refl) as [-> | (s & -> & Hs)]; [reflexivity | exact Hs]. }
  exists (put_payload cfg content rel (sha_of_reply (inl v))). eexists.
  split; [apply new_calls_app; exact Htr |].
  unfold put_payload. rewrite Hsha. split; [reflexivity |].
  rewrite !dom_insert_L, dom_singleton_L. set_solver.
Qed.

Lemma upload_file_without_usable_token_witness :
  ∃ (payload : gmap string json) (put_reply : reply),
    new_calls (init_world [found EmptyString; inl JNull] [])
      (upload_file Scripted.urlopen (Scripted.read_from [("./a.txt", hello)])
         example_config "./a.txt" "a.txt"
         (init_world [found EmptyString; inl JNull] [])).2
    = [(get_contents_request example_config "a.txt", found EmptyString);
       (Request PUT (API_BASE +:+ contents_path example_config "a.txt")
          (json_headers example_config) (Some payload), put_reply)]
    ∧ payload !! "sha" = None
    ∧ dom payload = {[ "message"; "content"; "branch" ]}.
Proof.
  apply (upload_file_without_usable_token Scripted.store Scripted.urlopen
           (Scripted.read_from [("./a.txt", hello)]) example_config
           "./a.txt" "a.txt" "a.txt" hello (init_world [found EmptyString; inl JNull] [])
           (JObj {[ "sha" := JStr EmptyString ]}) eq_refl eq_refl eq_refl).
  intros m Hm. injection Hm as <-. right. exists (JStr EmptyString).
  split; reflexivity.
Defined.

(** X12. For a readable file whose relative path [quote] accepts,
    [upload_file] hands exactly two requests to [urlopen], whatever the
    remote answers: a GET of the contents URL of the percent-encoded
    relative path with [?ref=BRANCH], without body, then a PUT of the same
    contents URL without query string, whose payload holds under
    ["content"] the base64 text of the bytes read from the local path and
    under ["branch"] the target branch; both are built with the token in
    the [Authorization] header. *)
Theorem upload_file_requests :
  ∀ (store : Type) (urlopen : store → request → reply * store)
    (read_file : string → option (list byte)) (cfg : config)
    (full rel q : string) (content : list byte) (w : world store),
    read_file full = Some content →
    quote rel = Some q →
    ∃ (query write : request) (answer put_reply : reply)
      (payload : gmap string json),
      new_calls w (upload_file urlopen read_file cfg full rel w).2
      = [(query, answer); (write, put_reply)]
      ∧ meth query = GET ∧ data query = None
      ∧ url query = "https://api.github.com/repos/" +:+ REPO cfg +:+ "/contents/"
                    +:+ q +:+ "?ref=" +:+ BRANCH cfg
      ∧ meth write = PUT ∧ data write = Some payload
      ∧ url write = "https://api.github.com/repos/" +:+ REPO cfg +:+ "/contents/"
                    +:+ q
      ∧ payload !! "content" = Some (JStr (b64encode content))
      ∧ payload !! "branch" = Some (JStr (BRANCH cfg))
      ∧ headers query !! "Authorization" = Some ("token " +:+ GITHUB_TOKEN cfg)
      ∧ headers write !! "Authorization" = Some ("token " +:+ GITHUB_TOKEN cfg)
      ∧ headers write !! "Content-Type" = Some "application/json".
Proof.
  intros store urlopen read_file cfg full rel q content w Hread Hq.
  pose proof (upload_file_new_calls urlopen read_file cfg full rel q content w Hread Hq)
    as Htr.
  destruct (quote_some _ _ Hq) as [-> _].
  cbv zeta in Htr.
  eexists _, _, _, _, _. split; [apply new_calls_app; exact Htr |].
  split; [reflexivity |]. split; [reflexivity |]. split.
  { unfold get_contents_request, get_request, contents_path, API_BASE. cbn [url].
    by rewrite !str_app_assoc. }
  split; [reflexivity |]. split; [reflexivity |]. split.
  { reflexivity. }
  split.
  { unfold put_payload. destruct (Json.truthy _); by simplify_map_eq. }
  split.
  { unfold put_payload. destruct (Json.truthy _); by simplify_map_eq. }
  split; [reflexivity |]. split; reflexivity.
Qed.

Lemma upload_file_requests_witness :
  ∃ (query write : request) (answer put_reply : reply)
    (payload : gmap string json),
    new_calls (init_world [not_found; inl JNull] [])
      (upload_file Scripted.urlopen (Scripted.read_from [("./a b.txt", hello)])
         example_config "./a b.txt" "a b.txt"
         (init_world [not_found; inl JNull] [])).2
    = [(query, answer); (write, put_reply)]
    ∧ meth query = GET ∧ data query = None
    ∧ url query = "https://api.github.com/repos/owner/repo/contents/a%20b.txt?ref=feature/webssh-verifier"
    ∧ meth write = PUT ∧ data write = Some payload
    ∧ url write = "https://api.github.com/repos/owner/repo/contents/a%20b.txt"
    ∧ payload !! "content" = Some (JStr "aGVsbG8=")
    ∧ payload !! "branch" = Some (JStr "feature/webssh-verifier")
    ∧ headers query !! "Authorization" = Some "token secret"
    ∧ headers write !! "Authorization" = Some "token secret"
    ∧ headers write !! "Content-Type" = Some "application/json".
Proof.
  exact (upload_file_requests Scripted.store Scripted.urlopen
           (Scripted.read_from [("./a b.txt", hello)]) example_config
           "./a b.txt" "a b.txt" "a%20b.txt" hello (init_world [not_found; inl JNull] [])
           eq_refl eq_refl).
Defined.

(** X20. A readable file whose relative path holds a byte that is not
    UTF-8 (a name the file system could not decode) is not uploaded and
    stops the run: [quote] raises [UnicodeEncodeError], which the handler
    around the query swallows and the handler around the write does not,
    so [upload_file] makes no remote call, prints nothing and ends on the
    uncaught exception, with exit status 1. *)
Theorem upload_file_unencodable_path :
  ∀ (store : Type) (urlopen : store → request → reply * store)
    (read_file : string → option (list byte)) (cfg : config)
    (full rel : string) (content : list byte) (w : world store),
    read_file full = Some content →
    PyStr.utf8_valid rel = false →
    let run := upload_file urlopen read_file cfg full rel w in
    run.1 = Raise (EException "UnicodeEncodeError")
    ∧ exit_status run.1 = 1
    ∧ run.2 = w.
Proof.
  intros store urlopen read_file cfg full rel content w Hread Hrel run.
  assert (Hq : quote rel = None).
  { unfold quote, PyStr.encode. by rewrite Hrel. }
  subst run. by rewrite (upload_file_unquotable urlopen read_file cfg _ _ _ _ Hread Hq).
Qed.

Lemma upload_file_unencodable_path_witness :
  let run := upload_file Scripted.urlopen
               (Scripted.read_from [("./" +:+ undecodable_name, hello)])
               example_config ("./" +:+ undecodable_name) undecodable_name
               (init_world [not_found; inl JNull] []) in
  run.1 = Raise (EException "UnicodeEncodeError")
  ∧ exit_status run.1 = 1
  ∧ run.2 = init_world [not_found; inl JNull] [].
Proof.
  exact (upload_file_unencodable_path Scripted.store Scripted.urlopen
           (Scripted.read_from [("./" +:+ undecodable_name, hello)])
           example_config ("./" +:+ undecodable_name) undecodable_name hello
           (init_world [not_found; inl JNull] []) eq_refl eq_refl).
Defined.

(** ** Exit statuses *)

Section ExitFacts.
Context {store : Type}.
Variable urlopen : store → request → reply * store.
Variable read_file : string → option (list byte).
Variable sep : ascii.
Variable cwd : string.
Variable source_tree : tree.

Lemma upload_log_last (cfg : config) (files : list (string * string))
    (up : list (request * reply)) (out : outcome unit) :
  upload_log cfg read_file files up out →
  (out = Return tt ∨ (∃ e, out = Raise e) ∨ out = SysExit 5)
  ∧ (out = SysExit 5
     ↔ ∃ rq e, last up = Some (rq, inr (EHTTPError e))
               ∧ PyStr.utf8_valid (err_body e) = true)
  ∧ (∀ rq rp, last up = Some (rq, rp) → meth rq = PUT)
  ∧ (∀ c rest, up = c :: rest → meth c.1 = GET).
Proof.
  induction 1 as [| full rel rest Hread
                  | full rel rest content Hread Hq
                  | full rel rest content answer body calls out Hread Hq Hlog IH
                  | full rel rest content answer e Hread Hq
                  | full rel rest content answer msg Hread Hq].
  - split; [by left |]. split; [| split; intros; discriminate].
    split; [discriminate | by intros (? & ? & ? & ?)].
  - split; [right; left; by eexists |]. split; [| split; intros; discriminate].
    split; [discriminate | by intros (? & ? & ? & ?)].
  - split; [right; left; by eexists |]. split; [| split; intros; discriminate].
    split; [discriminate | by intros (? & ? & ? & ?)].
  - destruct IH as (IH1 & IH2 & IH3 & IH4). split; [done |].
    destruct calls as [|c calls].
    + split; [| split].
      * rewrite IH2. cbn. split; intros (? & ? & ? & ?); discriminate.
      * intros rq rp [= <- <-]. reflexivity.
      * intros c rest' [= <- _]. reflexivity.
    + split; [| split].
      * by rewrite IH2.
      * intros rq rp Hl. by apply (IH3 rq rp).
      * intros c' rest' [= <- _]. reflexivity.
  - unfold rejected_outcome. destruct (PyStr.utf8_valid (err_body e)) eqn:Hbody.
    + split; [by right; right |]. split; [| split].
      * split; [intros _; by eexists _, _ | done].
      * intros rq rp [= <- <-]. reflexivity.
      * intros c rest' [= <- _]. reflexivity.
    + split; [right; left; by eexists |]. split; [| split].
      * split; [discriminate |]. intros (rq & e' & Hl & Hv). cbn in Hl.
        injection Hl as _ <-. congruence.
      * intros rq rp [= <- <-]. reflexivity.
      * intros c rest' [= <- _]. reflexivity.
  - split; [right; left; by eexists |]. split; [| split].
    + split; [discriminate | intros (? & ? & ? & ?); discriminate].
    + intros rq rp [= <- <-]. reflexivity.
    + intros c rest' [= <- _]. reflexivity.
Qed.

(** The exit status of [main] and the calls it made. *)
Lemma main_status (cfg : config) (w : world store) :
  let run := main urlopen read_file sep cwd source_tree cfg w in
  let calls := new_calls w run.2 in
  (exit_status run.1 = 3 ↔ ∃ rq e rest, calls = (rq, inr (EHTTPError e)) :: rest)
  ∧ (exit_status run.1 = 4
     ↔ ∃ rq e, last calls = Some (rq, inr e) ∧ meth rq = POST)
  ∧ (exit_status run.1 = 5
     ↔ ∃ rq e, last calls = Some (rq, inr (EHTTPError e)) ∧ meth rq = PUT
               ∧ PyStr.utf8_valid (err_body e) = true)
  ∧ (exit_status run.1 = 0 ↔ run.1 = Return tt)
  ∧ (exit_status run.1 = 0 ∨ exit_status run.1 = 1 ∨ exit_status run.1 = 3
     ∨ exit_status run.1 = 4 ∨ exit_status run.1 = 5).
Proof.
  cbv zeta.
  destruct (main_log urlopen read_file sep cwd source_tree cfg w)
    as (eb & [(Hcalls & Hlog & Hne) | [(Hcalls & Hlog & _ & Hraise)
              | (files & up & Hcalls & Hlog & Hfiles & Hup)]]).
  - rewrite Hcalls.
    destruct (main urlopen read_file sep cwd source_tree cfg w) as [out w'].
    cbn [fst snd] in *. clear Hcalls.
    destruct Hlog; cbn [exit_status last];
      (split; [| split; [| split; [| split]]]);
      try (split; [discriminate || lia || done | ]);
      try (intros (? & ? & ? & ? & ?)); try (intros (? & ? & ? & ?));
      try (intros (? & ? & ?)); try discriminate; try congruence;
      try (split; intros; by eauto using eq_refl); try (intros _; by eauto);
      try tauto.
    all: try (split; [intros _; by eexists _, _, _ | reflexivity]).
    all: try (split; [intros _; eexists _, _; split; reflexivity | reflexivity]).
    all: try (match goal with H : last _ = Some _ |- _ => cbn in H end; congruence).
    all: try (simplify_eq/=; done).
  - rewrite Hcalls, Hraise. clear Hcalls Hraise.
    inversion Hlog; subst; cbn [exit_status last];
      (split; [| split; [| split; [| split]]]);
      try (split; [discriminate | ]);
      try (intros (? & ? & ? & ?)); try (intros (? & ? & ?));
      try discriminate; try (simplify_eq/=; done); try tauto.
  - rewrite Hcalls. clear Hcalls.
    destruct (upload_log_last cfg _ _ _ Hup) as (Hout & H5 & Hlast & Hhead).
    destruct (main urlopen read_file sep cwd source_tree cfg w) as [out w'].
    cbn [fst snd] in *.
    assert (Hstatus : exit_status out = 0 ∨ exit_status out = 1 ∨ exit_status out = 5).
    { destruct Hout as [-> | [[e ->] | ->]]; cbn; tauto. }
    assert (H5' : exit_status out = 5 ↔ out = SysExit 5).
    { destruct Hout as [-> | [[e ->] | ->]]; cbn; split; congruence. }
    assert (H0' : exit_status out = 0 ↔ out = Return tt).
    { destruct Hout as [-> | [[e ->] | ->]]; cbn; split; congruence. }
    assert (Heb : ∃ r c eb', eb = (get_request cfg (ref_path cfg (BASE_BRANCH cfg)), inl r)
                                  :: c :: eb'
                             ∧ ∀ rq e, last (c :: eb') = Some (rq, inr e) → meth rq = GET).
    { inversion Hlog; subst; eexists _, _, _; (split; [reflexivity |]);
        intros ? ? Hl; cbn in Hl; by simplify_eq. }
    destruct Heb as (r & c & eb' & -> & Hebl).
    split; [| split; [| split; [| split]]].
    + split; [lia |]. intros (rq & e & rest & Heq). cbn in Heq. by simplify_eq.
    + split; [lia |]. intros (rq & e & Hl & Hm). exfalso.
      destruct up as [|u up'].
      * rewrite app_nil_r in Hl. cbn [last] in Hl.
        change (last (c :: eb') = Some (rq, inr e)) in Hl.
        specialize (Hebl _ _ Hl). congruence.
      * rewrite last_app in Hl. destruct (last (u :: up')) as [[rq' rp']|] eqn:El.
        -- injection Hl as -> ->. specialize (Hlast _ _ eq_refl). congruence.
        -- by apply last_None in El.
    + rewrite H5', H5. split.
      * intros (rq & e & Hl & Hv). exists rq, e.
        split; [| split; [by apply (Hlast rq (inr (EHTTPError e))) | done]].
        rewrite last_app, Hl. done.
      * intros (rq & e & Hl & Hm & Hv). destruct up as [|u up'].
        -- exfalso. rewrite app_nil_r in Hl.
           change (last (c :: eb') = Some (rq, inr (EHTTPError e))) in Hl.
           specialize (Hebl _ _ Hl). congruence.
        -- rewrite last_app in Hl.
           destruct (last (u :: up')) as [[rq' rp']|] eqn:El; [| by apply last_None in El].
           injection Hl as -> ->. by exists rq, e.
    + exact H0'.
    + tauto.
Qed.

End ExitFacts.

Section ScriptFacts.
Context {store : Type}.
Variable urlopen : store → request → reply * store.
Variable read_file : string → option (list byte).
Variable sep : ascii.
Variable cwd : string.
Variable source_tree : tree.

Lemma or_default_truthy (v : option string) (d : string) :
  PyStr.truthy d = true → PyStr.truthy (PyStr.or_default v d) = true.
Proof.
  intros Hd. unfold PyStr.or_default.
  destruct v as [s|]; [| done]. by destruct (PyStr.truthy s) eqn:E.
Qed.

(** With a token, the script either stops at the prompt or runs [main]
    with the configuration read from the environment, before any call. *)
Lemma script_run (environ : gmap string string) (st : store) (lines : list string) :
  token_missing environ = false →
  (∃ w', trace w' = []
         ∧ script urlopen read_file sep cwd source_tree environ (init_world st lines)
           = (Raise (EException "EOFError"), w'))
  ∨ (∃ repo w', trace w' = []
         ∧ script urlopen read_file sep cwd source_tree environ (init_world st lines)
           = main urlopen read_file sep cwd source_tree (read_config environ repo) w').
Proof.
  unfold token_missing, script. intros ->.
  destruct (PyStr.truthy (default EmptyString (environ !! "REPO"))).
  - right. eexists _, (init_world st lines). split; reflexivity.
  - destruct lines as [|line rest].
    + left. eexists. split; [| reflexivity]. reflexivity.
    + right. eexists (PyStr.strip line), _. split; [| reflexivity]. reflexivity.
Qed.

End ScriptFacts.

(** X13. The exit status of the script tells the fatal condition apart, for
    every environment, remote, file system and input: it is 2 exactly when
    GITHUB_TOKEN is unset or empty, and then nothing was sent and only the
    error line was printed; 3 exactly when the first call, the query of the
    base branch, was answered by an HTTP error; 4 exactly when the last
    call is a POST that failed; 5 exactly when the last call is a PUT
    answered by an HTTP error whose body can be decoded as UTF-8; 0
    exactly when the script ran to its end; and 1, the status of an
    uncaught exception, in every other case, among them a rejected PUT
    whose body cannot be decoded. *)
Theorem script_exit_status :
  ∀ (store : Type) (urlopen : store → request → reply * store)
    (read_file : string → option (list byte)) (sep : ascii) (cwd : string)
    (source_tree : tree) (environ : gmap string string) (st : store)
    (lines : list string),
    let run := script urlopen read_file sep cwd source_tree environ
                 (init_world st lines) in
    let calls := trace run.2 in
    let status := exit_status run.1 in
    (status = 2 ↔ token_missing environ = true)
    ∧ (token_missing environ = true
       → calls = [] ∧ stdout run.2 = [token_error_line])
    ∧ (status = 3 ↔ ∃ rq e rest, calls = (rq, inr (EHTTPError e)) :: rest)
    ∧ (status = 4 ↔ ∃ rq e, last calls = Some (rq, inr e) ∧ meth rq = POST)
    ∧ (status = 5
       ↔ ∃ rq e, last calls = Some (rq, inr (EHTTPError e)) ∧ meth rq = PUT
                 ∧ PyStr.utf8_valid (err_body e) = true)
    ∧ (status = 0 ↔ run.1 = Return tt)
    ∧ (status = 0 ∨ status = 1 ∨ status = 2 ∨ status = 3 ∨ status = 4
       ∨ status = 5).
Proof.
  intros store urlopen read_file sep cwd source_tree environ st lines. cbv zeta.
  destruct (token_missing environ) eqn:Htok.
  - unfold script. unfold token_missing in Htok. rewrite Htok. cbn.
    split; [done |]. split; [done |].
    split; [split; [discriminate | by intros (? & ? & ? & ?)] |].
    split; [split; [discriminate | by intros (? & ? & ? & ?)] |].
    split; [split; [discriminate | by intros (? & ? & ? & ? & ?)] |].
    split; [split; discriminate |]. tauto.
  - destruct (script_run urlopen read_file sep cwd source_tree environ st lines Htok)
      as [(w' & Htr & ->) | (repo & w' & Htr & ->)].
    + cbn [fst snd exit_status]. rewrite Htr.
      split; [split; discriminate |]. split; [discriminate |].
      split; [split; [discriminate | by intros (? & ? & ? & ?)] |].
      split; [split; [discriminate | by intros (? & ? & ? & ?)] |].
      split; [split; [discriminate | by intros (? & ? & ? & ? & ?)] |].
      split; [split; discriminate |]. tauto.
    + pose proof (main_status urlopen read_file sep cwd source_tree
                    (read_config environ repo) w') as Hmain.
      cbv zeta in Hmain. unfold new_calls in Hmain. rewrite Htr in Hmain.
      cbn [length] in Hmain. rewrite drop_0 in Hmain.
      destruct Hmain as (H3 & H4 & H5 & H0 & Hall).
      split; [split; [lia | discriminate] |]. split; [discriminate |].
      split; [exact H3 |]. split; [exact H4 |]. split; [exact H5 |].
      split; [exact H0 |]. tauto.
Qed.

(** X14. Whatever the environment holds, the directory the script walks is
    not empty (an unset or empty SOURCE_DIR is replaced by the current
    directory), so every file name reached by the walk has a relative
    path and the list of files is always built: the run never stops
    between the branch and the uploads. *)
Theorem script_always_lists_files :
  ∀ (sep : ascii) (cwd : string) (environ : gmap string string)
    (repo : string) (t : tree),
    let cfg := read_config environ repo in
    PyStr.truthy (SOURCE_DIR cfg) = true
    ∧ (PyStr.truthy (default EmptyString (environ !! "SOURCE_DIR")) = false
       → SOURCE_DIR cfg = ".")
    ∧ discover_files sep cwd cfg t
      = Some (flat_map (entry_records sep cwd cfg) (os_walk sep (SOURCE_DIR cfg) t)).
Proof.
  intros sep cwd environ repo t. cbv zeta.
  assert (Hdir : PyStr.truthy (SOURCE_DIR (read_config environ repo)) = true).
  { cbn [read_config SOURCE_DIR]. by apply or_default_truthy. }
  split; [exact Hdir |]. split.
  - cbn [read_config SOURCE_DIR]. unfold PyStr.or_default.
    destruct (environ !! "SOURCE_DIR") as [s|]; [| done].
    change (default EmptyString (Some s)) with s. by intros ->.
  - by apply discover_files_eq.
Qed.

(** ** Where the calls go *)

Section CallFacts.
Context {store : Type}.
Variable urlopen : store → request → reply * store.
Variable read_file : string → option (list byte).
Variable sep : ascii.
Variable cwd : string.
Variable source_tree : tree.
Variable cfg : config.

Lemma startswith_repository (repo tail : string) :
  PyStr.startswith ("https://api.github.com/repos/" +:+ repo +:+ "/")
    ("https://api.github.com/repos/" +:+ (repo +:+ ("/" +:+ tail))) = true.
Proof.
  rewrite <- (str_app_assoc repo "/" tail).
  rewrite <- (str_app_assoc "https://api.github.com/repos/" (repo +:+ "/") tail).
  apply startswith_app.
Qed.

Lemma get_ref_repository_call (branch : string) :
  repository_call cfg (get_request cfg (ref_path cfg branch)).
Proof.
  split.
  - unfold get_request, ref_path. cbn [url]. rewrite ?str_app_assoc.
    exact (startswith_repository (REPO cfg) ("git/ref/heads/" +:+ branch)).
  - split; [reflexivity |]. split; [reflexivity |]. split; [done | done].
Qed.

Lemma create_ref_repository_call (branch : string) (sha : json) :
  repository_call cfg (create_ref_request cfg branch sha).
Proof.
  split.
  - unfold create_ref_request, refs_path. cbn [url]. rewrite ?str_app_assoc.
    exact (startswith_repository (REPO cfg) "git/refs").
  - split; [reflexivity |]. split; [reflexivity |].
    split; [split; discriminate |]. reflexivity.
Qed.

Lemma get_contents_repository_call (rel : string) :
  repository_call cfg (get_contents_request cfg rel).
Proof.
  split.
  - unfold get_contents_request, get_request, contents_path. cbn [url].
    rewrite ?str_app_assoc.
    exact (startswith_repository (REPO cfg)
             ("contents/" +:+ (quote_from_bytes rel +:+ ("?ref=" +:+ BRANCH cfg)))).
  - split; [reflexivity |]. split; [reflexivity |]. split; [done | done].
Qed.

Lemma put_contents_repository_call (content : list byte) (rel : string) (sha : json) :
  repository_call cfg (put_contents_request cfg content rel sha).
Proof.
  split.
  - unfold put_contents_request, contents_path. cbn [url]. rewrite ?str_app_assoc.
    exact (startswith_repository (REPO cfg) ("contents/" +:+ quote_from_bytes rel)).
  - split; [reflexivity |]. split; [reflexivity |].
    split; [split; discriminate |]. reflexivity.
Qed.

Lemma ensure_log_repository_calls (calls : list (request * reply))
    (out : outcome unit) :
  ensure_log cfg calls out → Forall (λ c, repository_call cfg c.1) calls.
Proof.
  intros Hlog. destruct Hlog;
    repeat (constructor;
            [first [apply get_ref_repository_call
                   | apply create_ref_repository_call] |]);
    constructor.
Qed.

Lemma upload_log_repository_calls (files : list (string * string))
    (calls : list (request * reply)) (out : outcome unit) :
  upload_log cfg read_file files calls out →
  Forall (λ c, repository_call cfg c.1) calls.
Proof.
  induction 1;
    repeat (constructor;
            [first [apply get_contents_repository_call
                   | apply put_contents_repository_call] |]);
    first [assumption | constructor].
Qed.

Lemma main_repository_calls (w : world store) :
  Forall (λ c, repository_call cfg c.1)
    (new_calls w (main urlopen read_file sep cwd source_tree cfg w).2).
Proof.
  destruct (main_log urlopen read_file sep cwd source_tree cfg w)
    as (eb & [(-> & Hlog & _) | [(-> & Hlog & _)
              | (files & up & -> & Hlog & _ & Hup)]]).
  - by apply (ensure_log_repository_calls _ _ Hlog).
  - by apply (ensure_log_repository_calls _ _ Hlog).
  - apply Forall_app. split.
    + by apply (ensure_log_repository_calls _ _ Hlog).
    + by apply (upload_log_repository_calls _ _ _ Hup).
Qed.

End CallFacts.

(** X18. Every request that a run of the script hands to [urlopen],
    whatever the environment, the remote, the files and the input, has a
    URL that starts with [https://api.github.com/repos/REPO/], where
    [REPO] is the variable of that name or, when it is unset or empty,
    the line read at the prompt with the white space of [str.strip]
    removed from both ends; it is built with the token of the
    environment, which is not empty, after [token ] under
    [Authorization] and with the script's [User-Agent]; it has a body
    exactly when it is not a GET, and then the JSON content type.  What
    [urlopen] does with a request is not part of the statement. *)
Theorem script_calls_repository_api :
  ∀ (store : Type) (urlopen : store → request → reply * store)
    (read_file : string → option (list byte)) (sep : ascii) (cwd : string)
    (source_tree : tree) (environ : gmap string string) (st : store)
    (lines : list string),
    let run := script urlopen read_file sep cwd source_tree environ
                 (init_world st lines) in
    let cfg := read_config environ (repo_of environ lines) in
    Forall (λ c, repository_call cfg c.1
                 ∧ environ !! "GITHUB_TOKEN" = Some (GITHUB_TOKEN cfg)
                 ∧ PyStr.truthy (GITHUB_TOKEN cfg) = true)
      (trace run.2).
Proof.
  intros store urlopen read_file sep cwd source_tree environ st lines. cbv zeta.
  destruct (token_missing environ) eqn:Htok.
  - unfold script. unfold token_missing in Htok. rewrite Htok. cbn. constructor.
  - assert (Htoken : environ !! "GITHUB_TOKEN"
                     = Some (GITHUB_TOKEN (read_config environ (repo_of environ lines)))
                     ∧ PyStr.truthy (GITHUB_TOKEN (read_config environ (repo_of environ lines)))
                       = true).
    { unfold token_missing in Htok. apply negb_false_iff in Htok.
      cbn [read_config GITHUB_TOKEN].
      destruct (environ !! "GITHUB_TOKEN") as [token|]; [done | discriminate]. }
    unfold script. unfold token_missing in Htok. rewrite Htok.
    unfold repo_of.
    destruct (PyStr.truthy (default EmptyString (environ !! "REPO"))).
    + rewrite bind_unfold. cbn [ret].
      pose proof (main_repository_calls urlopen read_file sep cwd source_tree
                    (read_config environ (default EmptyString (environ !! "REPO")))
                    (init_world st lines)) as Hcalls.
      unfold new_calls in Hcalls. cbn [init_world trace length] in Hcalls.
      rewrite drop_0 in Hcalls.
      unfold repo_of in Htoken.
      eapply Forall_impl; [exact Hcalls |]. intros c Hc. by split.
    + destruct lines as [|line rest].
      * cbn. constructor.
      * rewrite bind_unfold. cbn [head default].
        pose proof (main_repository_calls urlopen read_file sep cwd source_tree
                      (read_config environ (PyStr.strip line))
                      (World st [] ["Repo (owner/repo): "] rest)) as Hcalls.
        unfold new_calls in Hcalls. cbn [trace length] in Hcalls.
        rewrite drop_0 in Hcalls.
        eapply Forall_impl; [exact Hcalls |]. intros c Hc. by split.
Qed.

(** ** What the upload loop prints *)

(** X19. The upload loop prints one line [Uploaded] with the relative path
    for each file it stored, in the order of the list.  When it returns,
    every file of the list has its line and nothing else was printed.
    When a write is answered by an HTTP error, that response is the last
    call of the loop and, after the lines of the files before it, the
    loop prints the path of the rejected file with the status code; if
    the body of the response is UTF-8 it prints the body too and exits
    with status 5, and if it is not the loop ends on the uncaught
    [UnicodeDecodeError] without that line.  When the loop ends on any
    other exception (a file that cannot be read, a path that cannot be
    encoded, a call that fails otherwise) it prints nothing after the
    lines of the files stored. *)
Theorem upload_all_progress :
  ∀ (store : Type) (urlopen : store → request → reply * store)
    (read_file : string → option (list byte)) (cfg : config)
    (files : list (string * string)) (w : world store),
    let run := upload_all urlopen read_file cfg files w in
    let calls := new_calls w run.2 in
    ∃ (k : nat) (tail : list string),
      stdout run.2
      = stdout w ++ map (λ f, uploaded_line f.2) (take k files) ++ tail
      ∧ match run.1 with
        | Return _ => k = length files ∧ tail = []
        | SysExit status =>
            status = 5
            ∧ ∃ (full rel : string) (rq : request) (e : HTTPError),
                files !! k = Some (full, rel)
                ∧ last calls = Some (rq, inr (EHTTPError e))
                ∧ PyStr.utf8_valid (err_body e) = true
                ∧ tail = [upload_failure_line rel e; err_body e]
        | Raise x =>
            (k < length files)%nat
            ∧ match last calls with
              | Some (rq, inr (EHTTPError e)) =>
                  x = EException "UnicodeDecodeError"
                  ∧ PyStr.utf8_valid (err_body e) = false
                  ∧ ∃ full rel : string,
                      files !! k = Some (full, rel)
                      ∧ tail = [upload_failure_line rel e]
              | _ => tail = []
              end
        end.
Proof.
  intros store urlopen read_file cfg files. cbv zeta.
  induction files as [|[full rel] rest IH]; intros w.
  { exists 0%nat, []. cbn. by rewrite app_nil_r. }
  assert (Hnone : new_calls w w = []).
  { apply new_calls_app. by rewrite app_nil_r. }
  cbn [upload_all]. rewrite bind_unfold.
  destruct (read_file full) as [content|] eqn:Hread.
  2:{ rewrite (upload_file_unreadable urlopen read_file cfg _ _ _ Hread).
      exists 0%nat, []. cbn [fst snd]. rewrite Hnone. cbn. rewrite app_nil_r.
      split; [done |]. split; [lia | done]. }
  destruct (quote rel) as [q|] eqn:Hq.
  2:{ rewrite (upload_file_unquotable urlopen read_file cfg _ _ _ _ Hread Hq).
      exists 0%nat, []. cbn [fst snd]. rewrite Hnone. cbn. rewrite app_nil_r.
      split; [done |]. split; [lia | done]. }
  rewrite (upload_file_run urlopen read_file cfg _ _ _ _ _ Hread Hq).
  set (get_rq := get_contents_request cfg rel).
  set (answer := reply_of urlopen w get_rq).
  set (put_rq := put_contents_request cfg content rel (sha_of_reply answer)).
  set (w2 := record_call urlopen (record_call urlopen w get_rq) put_rq).
  assert (Htr2 : ∀ lines, trace (record_print w2 lines)
                 = trace w ++ [(get_rq, answer);
                               (put_rq, reply_of urlopen (record_call urlopen w get_rq) put_rq)]).
  { intros lines. subst w2. rewrite trace_record_print, !trace_record_call.
    by rewrite <- app_assoc. }
  destruct (reply_of urlopen (record_call urlopen w get_rq) put_rq)
    as [body|[e|msg]] eqn:Hput.
  - set (w3 := record_print w2 [uploaded_line rel]).
    destruct (IH w3) as (k & tail & Hout & Hend).
    destruct (upload_all_log urlopen read_file cfg rest w3) as (new & Htr & _).
    rewrite (new_calls_app _ _ _ Htr) in Hend.
    assert (Hcalls : new_calls w (upload_all urlopen read_file cfg rest w3).2
                     = (get_rq, answer) :: (put_rq, inl body) :: new).
    { apply new_calls_app. rewrite Htr. subst w3. rewrite Htr2.
      by rewrite <- app_assoc. }
    rewrite Hcalls.
    exists (S k), tail. split.
    { rewrite Hout. cbn. by rewrite <- app_assoc. }
    destruct (upload_all urlopen read_file cfg rest w3).1 as [[]|x|status].
    + destruct Hend as [-> ->]. done.
    + destruct Hend as [Hk Hend]. split; [cbn; lia |].
      destruct new as [|c new']; [exact Hend | exact Hend].
    + destruct Hend as (-> & f & r & rq & e & Hf & Hlast & Hv & ->).
      split; [done |]. exists f, r, rq, e. split; [done |].
      split; [| done]. destruct new as [|c new']; [discriminate Hlast | exact Hlast].
  - assert (Hcalls : ∀ lines, new_calls w (record_print w2 lines)
                     = [(get_rq, answer); (put_rq, inr (EHTTPError e))]).
    { intros lines. apply new_calls_app. by rewrite Htr2. }
    unfold rejected_outcome, rejected_lines.
    destruct (PyStr.utf8_valid (err_body e)) eqn:Hv; cbn [fst snd]; rewrite Hcalls.
    + exists 0%nat, [upload_failure_line rel e; err_body e].
      split; [reflexivity |]. split; [done |]. by exists full, rel, put_rq, e.
    + exists 0%nat, [upload_failure_line rel e].
      split; [reflexivity |]. split; [cbn; lia |]. cbn [last].
      split; [done |]. split; [done |]. by exists full, rel.
  - assert (Hcalls : new_calls w w2
                     = [(get_rq, answer); (put_rq, inr (EException msg))]).
    { apply new_calls_app. exact (Htr2 []). }
    cbn [fst snd]. rewrite Hcalls.
    exists 0%nat, []. cbn. rewrite app_nil_r. split; [done |]. split; [lia | done].
Qed.

(** ** The memory service *)

Section ServerFacts.
Import Server.
Context {text : Type}.
Variable loads : text → option json.
Variable dumps : json → text.

Lemma insert_memory_ok (entry : MemoryEntry) (f : file text) (r : json) :
  (insert_memory loads dumps entry f).1 = inr r →
  ∃ m, (match f with
        | File content => loads content = Some (JObj m)
        | NoFile => m = ∅
        | NoDirectory => False
        end)
       ∧ (insert_memory loads dumps entry f).2
         = File (dumps (JObj (<[ key entry := JStr (value entry) ]> m))).
Proof.
  unfold insert_memory. destruct f as [| | content].
  - cbn. discriminate.
  - cbn. intros _. by exists ∅.
  - destruct (loads content) as [[| | | | |m]|]; cbn; try discriminate.
    intros _. by exists m.
Qed.

End ServerFacts.

(** X15. Storing then reading.  For a file format in which an object that
    was written is read back, a successful POST /memory of (key, value)
    makes GET /memory/key answer with that value, and leaves the answer
    for every other key as it was when the file was there; when the file
    was not there, where every GET was a 404, the other keys are now
    answered with the string Not Found. *)
Theorem get_memory_after_insert :
  ∀ (text : Type) (loads : text → option json) (dumps : json → text)
    (entry : Server.MemoryEntry) (f : Server.file text) (r : json),
    (∀ m : gmap string json, loads (dumps (JObj m)) = Some (JObj m)) →
    (Server.insert_memory loads dumps entry f).1 = inr r →
    let f' := (Server.insert_memory loads dumps entry f).2 in
    Server.get_memory loads (Server.key entry) f'
    = inr (JObj {[ "value" := JStr (Server.value entry) ]})
    ∧ ∀ k, k ≠ Server.key entry →
        Server.get_memory loads k f'
        = if Server.path_exists f then Server.get_memory loads k f
          else inr (JObj {[ "value" := JStr "Not Found" ]}).
Proof.
  intros text loads dumps entry f r Hcodec Hok. cbv zeta.
  destruct (insert_memory_ok loads dumps entry f r Hok) as (m & Hm & ->).
  unfold Server.get_memory at 1. rewrite Hcodec. split.
  - by rewrite lookup_insert_eq.
  - intros k Hk. unfold Server.get_memory at 1. rewrite Hcodec.
    rewrite lookup_insert_ne by done.
    destruct f as [| | content]; [done | |].
    + subst m. cbn. by rewrite lookup_empty.
    + cbn [Server.path_exists]. unfold Server.get_memory. by rewrite Hm.
Qed.

Lemma get_memory_after_insert_witness :
  Server.get_memory Server.plain_loads "a"
    (Server.insert_memory Server.plain_loads Server.plain_dumps
       {| Server.key := "a"; Server.value := "1" |} Server.NoFile).2
  = inr (JObj {[ "value" := JStr "1" ]})
  ∧ ∀ k, k ≠ "a" →
      Server.get_memory Server.plain_loads k
        (Server.insert_memory Server.plain_loads Server.plain_dumps
           {| Server.key := "a"; Server.value := "1" |} Server.NoFile).2
      = inr (JObj {[ "value" := JStr "Not Found" ]}).
Proof.
  exact (get_memory_after_insert json Server.plain_loads Server.plain_dumps
           {| Server.key := "a"; Server.value := "1" |} Server.NoFile _
           (λ m, eq_refl) eq_refl).
Defined.

(** X16. A failed POST /memory changes nothing on disk, and it fails
    exactly when the directory of the file is missing or the file is there
    but does not hold a JSON object (a JSON array, string, number, true,
    false or null, or text that is not JSON); the response then has
    status 500. *)
Theorem insert_memory_failure :
  ∀ (text : Type) (loads : text → option json) (dumps : json → text)
    (entry : Server.MemoryEntry) (f : Server.file text),
    let run := Server.insert_memory loads dumps entry f in
    ((∃ e, run.1 = inl e)
     ↔ f = Server.NoDirectory
       ∨ ∃ content, f = Server.File content
                    ∧ ∀ m, loads content ≠ Some (JObj m))
    ∧ (∀ e, run.1 = inl e → run.2 = f ∧ Server.status_code_of run.1 = 500)
    ∧ (∀ r, run.1 = inr r → Server.status_code_of run.1 = 200
                            ∧ Server.path_exists run.2 = true).
Proof.
  intros text loads dumps entry f. cbv zeta. unfold Server.insert_memory.
  destruct f as [| | content].
  - cbn. split; [split; [by left | by eexists] |]. split; [| discriminate].
    by intros e [= <-].
  - cbn. split; [| split; [discriminate | done]].
    split; [by intros [e ?] | intros [? | (c & ? & _)]; discriminate].
  - destruct (loads content) as [[| | | | |m]|] eqn:Hload; cbn.
    all: try (split; [split; [intros _; right; exists content;
                                split; [done | intros m; congruence]
                              | by eexists]
                     | split; [by intros e [= <-] | discriminate]]).
    split; [| split; [discriminate | done]].
    split; [by intros [e ?] |].
    intros [? | (c & [= <-] & Hno)]; [discriminate |]. by destruct (Hno m).
Qed.

(** X17. GET /memory/key answers 404 only when the file is missing, never
    for a missing key: when the file holds a JSON object the answer is
    always a success, and its value is the string Not Found exactly when
    the key is absent or is stored with that very string, so the two
    cases cannot be told apart. *)
Theorem get_memory_not_found :
  ∀ (text : Type) (loads : text → option json) (k : string)
    (f : Server.file text),
    (Server.status_code_of (Server.get_memory loads k f) = 404
     ↔ Server.path_exists f = false)
    ∧ ∀ content m, f = Server.File content → loads content = Some (JObj m) →
        Server.status_code_of (Server.get_memory loads k f) = 200
        ∧ (Server.get_memory loads k f
           = inr (JObj {[ "value" := JStr "Not Found" ]})
           ↔ m !! k = None ∨ m !! k = Some (JStr "Not Found")).
Proof.
  intros text loads k f. split.
  - destruct f as [| | content]; cbn; [done | done |].
    destruct (loads content) as [[| | | | |m]|]; cbn; split; discriminate.
  - intros content m -> Hm. unfold Server.get_memory. rewrite Hm. cbn.
    split; [done |]. destruct (m !! k) as [v|]; cbn.
    + split.
      * intros Heq. right. f_equal.
        apply (f_equal (λ r : Server.exn + json,
                          match r with
                          | inr (JObj d) => d !! "value"
                          | _ => None
                          end)) in Heq.
        rewrite !lookup_singleton_eq in Heq. congruence.
      * intros [? | [= ->]]; [discriminate | done].
    + split; [by left | done].
Qed.
